(** * Indicator engine of the trade-bot scripts

    A shallow embedding of the indicator computations of [tradingbot.py],
    [app10.py] and [app11.py] and of the signal checks of [app11.py] and
    [app12.py], the properties the specification states about them, and
    further properties of the code.

    Numeric model.  A Python/NumPy float is modelled by [fval]: an exact
    rational, the two infinities, or NaN.  The IEEE rules for the special
    values are written out; finite arithmetic is exact (rounding and the
    sign of zero are not modelled: a zero denominator is [+0]; overflow
    is modelled in [fibonacci_levels], where a claim depends on it).  An
    equality or a bound proved of a finite value is therefore one of the
    value computed without rounding error.  Where rounding decides a
    claim, it is modelled: the exit calculator of [app12.py] compares a
    rounded difference ([Rounding]), and module [F64] has the lines of
    [add_adx] over the binary64 numbers of the code, where the claim is
    settled by evaluating them.
    A pandas [Series] is a [list fval]; positions play the role of the
    index, which in these scripts is always the frame's own index. *)

From Stdlib Require Import String QArith Qabs Qround ZArith List Lia Lqa Bool Arith.
From Stdlib Require PrimFloat Uint63.
Import ListNotations.

Local Open Scope Q_scope.

(** ** Floating values *)

Inductive fval : Type :=
| Num (q : Q)
| PInf
| NInf
| NaN.

Definition Series := list fval.

Definition Qltb (x y : Q) : bool := negb (Qle_bool y x).

Definition is_nan (v : fval) : bool :=
  match v with NaN => true | _ => false end.


(** [np.isinf] *)
Definition is_inf (v : fval) : bool :=
  match v with PInf | NInf => true | _ => false end.

Definition fneg (v : fval) : fval :=
  match v with
  | Num q => Num (- q)
  | PInf => NInf
  | NInf => PInf
  | NaN => NaN
  end.

Definition fabs (v : fval) : fval :=
  match v with
  | Num q => Num (Qabs q)
  | PInf | NInf => PInf
  | NaN => NaN
  end.

Definition fadd (a b : fval) : fval :=
  match a, b with
  | NaN, _ | _, NaN => NaN
  | Num x, Num y => Num (x + y)
  | PInf, NInf | NInf, PInf => NaN
  | PInf, _ | _, PInf => PInf
  | NInf, _ | _, NInf => NInf
  end.

Definition fsub (a b : fval) : fval := fadd a (fneg b).

(** The infinity whose sign is that of [s] times the sign of [q];
    NaN when [q] is zero (inf * 0). *)
Definition inf_times (positive : bool) (q : Q) : fval :=
  if Qeq_bool q 0 then NaN
  else if xorb positive (Qltb q 0) then PInf else NInf.

Definition fmul (a b : fval) : fval :=
  match a, b with
  | NaN, _ | _, NaN => NaN
  | Num x, Num y => Num (x * y)
  | PInf, Num y | Num y, PInf => inf_times true y
  | NInf, Num y | Num y, NInf => inf_times false y
  | PInf, PInf | NInf, NInf => PInf
  | PInf, NInf | NInf, PInf => NInf
  end.

(** Division as NumPy and pandas do it: no exception on a zero
    denominator; x/0 is an infinity of the sign of x, 0/0 is NaN. *)
Definition fdiv (a b : fval) : fval :=
  match a, b with
  | NaN, _ | _, NaN => NaN
  | Num x, Num y =>
      if Qeq_bool y 0 then
        (if Qeq_bool x 0 then NaN else if Qltb 0 x then PInf else NInf)
      else Num (x / y)
  | Num _, (PInf | NInf) => Num 0
  | PInf, Num y => if Qltb y 0 then NInf else PInf
  | NInf, Num y => if Qltb y 0 then PInf else NInf
  | (PInf | NInf), (PInf | NInf) => NaN
  end.

(** [a > b]; false as soon as one side is NaN. *)
Definition fgtb (a b : fval) : bool :=
  match a, b with
  | NaN, _ | _, NaN => false
  | Num x, Num y => Qltb y x
  | PInf, PInf => false
  | PInf, _ => true
  | _, PInf => false
  | NInf, _ => false
  | _, NInf => true
  end.

Definition fltb (a b : fval) : bool := fgtb b a.

(** [a == b]; false as soon as one side is NaN. *)
Definition feqb (a b : fval) : bool :=
  match a, b with
  | Num x, Num y => Qeq_bool x y
  | PInf, PInf | NInf, NInf => true
  | _, _ => false
  end.

(** [a >= b] and [a <= b]. *)
Definition fgeb (a b : fval) : bool := fgtb a b || feqb a b.
Definition fleb (a b : fval) : bool := fgeb b a.

Declare Scope fval_scope.
Delimit Scope fval_scope with F.
Bind Scope fval_scope with fval.
Infix "+" := fadd : fval_scope.
Infix "-" := fsub : fval_scope.
Infix "*" := fmul : fval_scope.
Infix "/" := fdiv : fval_scope.

(** Equality of floating values up to the representation of rationals. *)
Definition feq (a b : fval) : Prop :=
  match a, b with
  | Num x, Num y => x == y
  | PInf, PInf | NInf, NInf | NaN, NaN => True
  | _, _ => False
  end.

(** [v] is a finite number in the closed interval [[lo, hi]]. *)
Definition in_range (lo hi : Q) (v : fval) : Prop :=
  match v with
  | Num q => lo <= q /\ q <= hi
  | _ => False
  end.

(** ** Outcomes of a Python call: a returned value or a raised exception,
    named by its class. *)

Inductive outcome (A : Type) : Type :=
| Returned (a : A)
| Raised (exn : string).
Arguments Returned {A} a.
Arguments Raised {A} exn.

Definition bind {A B : Type} (c : outcome A) (k : A -> outcome B) : outcome B :=
  match c with
  | Returned a => k a
  | Raised e => Raised e
  end.

Notation "x <- c ;; k" := (bind c (fun x => k))
  (at level 61, c at next level, right associativity).

(** ** Element-wise Series operations *)

Fixpoint zip_with {A B C : Type} (f : A -> B -> C) (xs : list A) (ys : list B)
  : list C :=
  match xs, ys with
  | x :: xs', y :: ys' => f x y :: zip_with f xs' ys'
  | _, _ => []
  end.

Definition s_add (a b : Series) : Series := zip_with fadd a b.
Definition s_sub (a b : Series) : Series := zip_with fsub a b.
Definition s_div (a b : Series) : Series := zip_with fdiv a b.
(** [series * k] and [k * series] for a scalar k *)
Definition s_scale (k : fval) (a : Series) : Series := map (fmul k) a.
Definition s_abs (a : Series) : Series := map fabs a.
Definition s_neg (a : Series) : Series := map fneg a.

(** [series.replace(0, np.nan)] *)
Definition replace_zero_nan (a : Series) : Series :=
  map (fun v => if feqb v (Num 0) then NaN else v) a.

(** [series.shift(k)] for k >= 0: k NaN in front, same length. *)
Definition shift (k : nat) (a : Series) : Series :=
  firstn (length a) (repeat NaN k ++ a).

(** [series.diff()] *)
Definition diff (a : Series) : Series := s_sub a (shift 1 a).

(** [series.clip(lower=lo)] and [series.clip(upper=hi)]; NaN stays NaN. *)
Definition clip_lower (lo : fval) (a : Series) : Series :=
  map (fun v => if fltb v lo then lo else v) a.
Definition clip_upper (hi : fval) (a : Series) : Series :=
  map (fun v => if fgtb v hi then hi else v) a.

(** ** Rolling windows ([Series.rolling(window)])

    pandas hands the window aggregations an array in which infinities have
    been turned into NaN ([_prep_values]), and a NaN is a missing
    observation.  With the default [min_periods = window] a position has a
    value only when its window is complete and free of NaN. *)

Definition prep (v : fval) : option Q :=
  match v with Num q => Some q | _ => None end.

(** The window that ends at position [i]: positions max(0, i-w+1) .. i. *)
Definition window_at {A : Type} (w : nat) (xs : list A) (i : nat) : list A :=
  skipn (i + 1 - w) (firstn (i + 1) xs).

Fixpoint observations (win : list (option Q)) : list Q :=
  match win with
  | [] => []
  | Some q :: rest => q :: observations rest
  | None :: rest => observations rest
  end.

Definition Qsum (l : list Q) : Q := fold_right Qplus 0 l.

Definition Qnat (n : nat) : Q := inject_Z (Z.of_nat n).

Definition Qmean (obs : list Q) : Q := Qsum obs / Qnat (length obs).

(** Sum of the squared deviations from the mean. *)
Definition Qssd (obs : list Q) : Q :=
  let m := Qmean obs in
  Qsum (map (fun x => (x - m) * (x - m)) obs).

(** [calc_sum], [calc_mean] and [calc_var] of pandas' window aggregations. *)
Definition calc_sum (minp : nat) (obs : list Q) : fval :=
  let nobs := length obs in
  if ((nobs =? 0) && (minp =? 0))%nat then Num 0
  else if (minp <=? nobs)%nat then Num (Qsum obs)
  else NaN.

Definition calc_mean (minp : nat) (obs : list Q) : fval :=
  let nobs := length obs in
  if ((minp <=? nobs) && (0 <? nobs))%nat then Num (Qmean obs) else NaN.

Definition calc_var (ddof : nat) (minp : nat) (obs : list Q) : fval :=
  let nobs := length obs in
  if ((minp <=? nobs) && (ddof <? nobs))%nat
  then Num (Qssd obs / Qnat (nobs - ddof))
  else NaN.

Definition rolling (agg : nat -> list Q -> fval) (w : nat) (a : Series) : Series :=
  map (fun i => agg w (observations (window_at w (map prep a) i)))
      (seq 0 (length a)).

Definition rolling_sum : nat -> Series -> Series := rolling calc_sum.
Definition rolling_mean : nat -> Series -> Series := rolling calc_mean.
Definition rolling_var (ddof : nat) : nat -> Series -> Series :=
  rolling (calc_var ddof).

(** The square root of a float.  The model is parametric in it: only the
    sign laws below are used, and every correctly rounded square root has
    them. *)
Class SqrtModel : Type := {
  sqrtQ : Q -> Q;
  sqrtQ_nonneg : forall x, 0 <= sqrtQ x;
  sqrtQ_pos : forall x, 0 < x -> 0 < sqrtQ x
}.

(** [zsqrt]: the square root, with 0 for a negative argument. *)
Definition zsqrt `{SqrtModel} (v : fval) : fval :=
  match v with
  | Num q => if Qltb q 0 then Num 0 else Num (sqrtQ q)
  | PInf => PInf
  | NInf | NaN => NaN
  end.

(** [rolling(w).std(ddof)]; pandas' default is ddof = 1. *)
Definition rolling_std `{SqrtModel} (ddof : nat) (w : nat) (a : Series) : Series :=
  map zsqrt (rolling_var ddof w a).

(** A concrete square root: the least multiple of 2^-30 whose square is at
    least the argument. *)
Definition sqrt_up (x : Q) : Q :=
  Z.sqrt_up (Qceiling (x * inject_Z (2 ^ 60))) # (2 ^ 30).

Lemma sqrt_up_nonneg : forall x, 0 <= sqrt_up x.
Proof.
  intros x. unfold sqrt_up, Qle. cbn [Qnum Qden].
  pose proof (Z.sqrt_up_nonneg (Qceiling (x * inject_Z (2 ^ 60)))). lia.
Qed.

Lemma sqrt_up_pos : forall x, 0 < x -> 0 < sqrt_up x.
Proof.
  intros x Hx. unfold sqrt_up.
  set (c := Qceiling (x * inject_Z (2 ^ 60))).
  assert (Hc : (0 < c)%Z).
  { assert (Hp : 0 < x * inject_Z (2 ^ 60)).
    { apply Qmult_lt_0_compat; [exact Hx | reflexivity]. }
    pose proof (Qle_ceiling (x * inject_Z (2 ^ 60))) as Hle.
    fold c in Hle.
    assert (Hq : 0 < inject_Z c) by (eapply Qlt_le_trans; eauto).
    rewrite (Zlt_Qlt 0 c). exact Hq. }
  apply Z.sqrt_up_pos in Hc.
  unfold Qlt. cbn [Qnum Qden]. lia.
Qed.

Definition dyadic_sqrt : SqrtModel :=
  {| sqrtQ := sqrt_up; sqrtQ_nonneg := sqrt_up_nonneg; sqrtQ_pos := sqrt_up_pos |}.

(** ** Exponentially weighted mean ([Series.ewm(span=..., adjust=...).mean()])

    The loop of pandas' [ewm] aggregation with its defaults
    ([ignore_na=False], [min_periods=0], unit time deltas).  [weighted] is
    the running mean, [old_wt] the weight it carries and [nobs] the number
    of observations seen. *)

Record ewm_state : Type := mk_ewm {
  weighted : fval;
  old_wt : Q;
  nobs : nat
}.

(** [alpha = 1 / (1 + com)] with [com = (span - 1) / 2]. *)
Definition alpha_of_span (span : nat) : Q := 1 / (1 + (Qnat span - 1) / 2).

Definition ewm_step (adjust : bool) (alpha : Q) (st : ewm_state) (cur : fval)
  : ewm_state :=
  let old_wt_factor := 1 - alpha in
  let new_wt := if adjust then 1 else alpha in
  let is_observation := negb (is_nan cur) in
  let nobs' := if is_observation then S (nobs st) else nobs st in
  if negb (is_nan (weighted st)) then
    let old_wt1 := old_wt st * old_wt_factor in
    if is_observation then
      let w' :=
        if negb (feqb (weighted st) cur)
        then ((Num old_wt1 * weighted st + Num new_wt * cur)
              / Num (old_wt1 + new_wt))%F
        else weighted st in
      mk_ewm w' (if adjust then old_wt1 + new_wt else 1) nobs'
    else mk_ewm (weighted st) old_wt1 nobs'
  else if is_observation then mk_ewm cur (old_wt st) nobs'
  else mk_ewm (weighted st) (old_wt st) nobs'.

(** [output[i] = weighted if nobs >= minp else NaN], with minp = 1. *)
Definition ewm_output (st : ewm_state) : fval :=
  if (1 <=? nobs st)%nat then weighted st else NaN.

Fixpoint ewm_loop (adjust : bool) (alpha : Q) (st : ewm_state) (vals : Series)
  : Series :=
  match vals with
  | [] => []
  | cur :: rest =>
      let st' := ewm_step adjust alpha st cur in
      ewm_output st' :: ewm_loop adjust alpha st' rest
  end.

(** [_prep_values]: before a window aggregation, [ewm] included, pandas
    turns the infinities of the input into NaN. *)
Definition prep_inf (a : Series) : Series :=
  map (fun v => if is_inf v then NaN else v) a.

(** pandas refuses a span below 1 with a [ValueError]. *)
Definition ewm_mean (adjust : bool) (span : nat) (a : Series) : outcome Series :=
  if (span <? 1)%nat then Raised "ValueError"
  else
    match prep_inf a with
    | [] => Returned []
    | v0 :: rest =>
        let st0 := mk_ewm v0 1 (if is_nan v0 then 0 else 1) in
        Returned (ewm_output st0 :: ewm_loop adjust (alpha_of_span span) st0 rest)
    end.

(** ** The data frame: one bar per row *)

Record Bar : Type := mk_bar {
  Open : fval;
  High : fval;
  Low : fval;
  Close : fval;
  Volume : fval
}.

Definition DataFrame := list Bar.

(** [df["Close"]] and the like. *)
Definition col (f : Bar -> fval) (df : DataFrame) : Series := map f df.

(** * tradingbot.py *)

Definition add_bollinger `{SqrtModel} (df : DataFrame) (period : nat) (num_std : Q)
  : outcome (Series * Series * Series) :=
  let ma := rolling_mean period (col Close df) in
  let std := rolling_std 1 period (col Close df) in
  let upper := s_add ma (map (fun s => (s * Num num_std)%F) std) in
  let lower := s_sub ma (map (fun s => (s * Num num_std)%F) std) in
  Returned (upper, ma, lower).

Definition add_macd (df : DataFrame) (fast slow signal : nat)
  : outcome (Series * Series * Series) :=
  ema_fast <- ewm_mean false fast (col Close df) ;;
  ema_slow <- ewm_mean false slow (col Close df) ;;
  let macd := s_sub ema_fast ema_slow in
  macd_signal <- ewm_mean false signal macd ;;
  let macd_hist := s_sub macd macd_signal in
  Returned (macd, macd_signal, macd_hist).

(** [int(period/2 + 1)] for a non-negative integer period. *)
Definition dpo_shift (period : nat) : nat := (period / 2 + 1)%nat.

Definition add_dpo (df : DataFrame) (period : nat) : outcome Series :=
  let sh := dpo_shift period in
  let sma := rolling_mean period (col Close df) in
  Returned (s_sub (shift sh (col Close df)) sma).

Definition add_cvo (df : DataFrame) (short long : nat)
  : outcome (Series * Series * Series) :=
  vol_short <- ewm_mean false short (col Volume df) ;;
  vol_long <- ewm_mean false long (col Volume df) ;;
  let cvo := s_div (s_scale (Num 100) (s_sub vol_short vol_long))
                   (replace_zero_nan vol_long) in
  Returned (cvo, vol_short, vol_long).

(** [np.max] of a column of three values: NaN as soon as one is NaN. *)
Definition np_max2 (a b : fval) : fval :=
  if is_nan a || is_nan b then NaN else if fgtb b a then b else a.
Definition np_max3 (a b c : fval) : fval := np_max2 (np_max2 a b) c.

Fixpoint zip_with3 {A B C D : Type} (f : A -> B -> C -> D)
  (xs : list A) (ys : list B) (zs : list C) : list D :=
  match xs, ys, zs with
  | x :: xs', y :: ys', z :: zs' => f x y z :: zip_with3 f xs' ys' zs'
  | _, _, _ => []
  end.

(** [np.where((a > b) & (a > 0), a, 0.0)] *)
Definition dm_where (a b : fval) : fval :=
  if fgtb a b && fgtb a (Num 0) then a else Num 0.

(** [pd.Series(data, index=df.index)]: pandas raises a [ValueError] when
    the data and the index differ in length. *)
Definition mk_series (data : Series) (index_len : nat) : outcome Series :=
  if (length data =? index_len)%nat then Returned data else Raised "ValueError".

Definition add_adx (df : DataFrame) (period : nat)
  : outcome (Series * Series * Series) :=
  let high := col High df in
  let low := col Low df in
  let close := col Close df in
  if (length close <? 2)%nat then
    let n := length df in
    a <- mk_series (repeat NaN n) (length df) ;;
    b <- mk_series (repeat NaN n) (length df) ;;
    c <- mk_series (repeat NaN n) (length df) ;;
    Returned (a, b, c)
  else
    let tr1 := s_sub (tl high) (tl low) in
    let tr2 := s_abs (s_sub (tl high) (removelast close)) in
    let tr3 := s_abs (s_sub (tl low) (removelast close)) in
    let tr := zip_with3 np_max3 tr1 tr2 tr3 in
    let up := s_sub (tl high) (removelast high) in
    let down := s_sub (removelast low) (tl low) in
    let plus_dm := zip_with dm_where up down in
    let minus_dm := zip_with dm_where down up in
    let tr_smooth := rolling_sum period tr in
    let plus_smooth := rolling_sum period plus_dm in
    let minus_smooth := rolling_sum period minus_dm in
    let plus_di := s_scale (Num 100) (s_div plus_smooth (replace_zero_nan tr_smooth)) in
    let minus_di := s_scale (Num 100) (s_div minus_smooth (replace_zero_nan tr_smooth)) in
    let dx := s_div (s_scale (Num 100) (s_abs (s_sub plus_di minus_di)))
                    (replace_zero_nan (s_add plus_di minus_di)) in
    let adx := rolling_mean period dx in
    let pad_len := (length df - length adx)%nat in
    plus_di_full <- mk_series (repeat NaN pad_len ++ plus_di) (length df) ;;
    minus_di_full <- mk_series (repeat NaN pad_len ++ minus_di) (length df) ;;
    adx_full <- mk_series (repeat NaN pad_len ++ adx) (length df) ;;
    Returned (plus_di_full, minus_di_full, adx_full).

(** [Series.max()] and [Series.min()]: NaN entries are skipped; the result
    is NaN when nothing is left. *)
Definition nan_max2 (acc v : fval) : fval :=
  if is_nan v then acc else if is_nan acc then v
  else if fgtb v acc then v else acc.
Definition nan_min2 (acc v : fval) : fval :=
  if is_nan v then acc else if is_nan acc then v
  else if fltb v acc then v else acc.
Definition series_max (a : Series) : fval := fold_left nan_max2 a NaN.
Definition series_min (a : Series) : fval := fold_left nan_min2 a NaN.

(** [df.tail(n)] for n >= 0: the last n rows. *)
Definition tail {A : Type} (n : nat) (df : list A) : list A :=
  skipn (length df - n) df.

(** A Python dict with string keys, in insertion order. *)
Definition dict := list (string * fval).

Fixpoint dict_get (d : dict) (k : string) : option fval :=
  match d with
  | [] => None
  | (k', v) :: rest => if String.eqb k k' then Some v else dict_get rest k
  end.

(** Overflow of a finite result.  The largest double is
    (2^53 - 1) * 2^971; a result whose magnitude reaches 2^1024 - 2^970
    is rounded to an infinity. *)
Definition overflow_threshold : Q := inject_Z (2 ^ 1024 - 2 ^ 970).

Definition overflow (v : fval) : fval :=
  match v with
  | Num q =>
      if Qle_bool overflow_threshold q then PInf
      else if Qle_bool q (- overflow_threshold) then NInf
      else v
  | _ => v
  end.

(** The subtractions and the products of the levels are the places of
    the script where prices of the magnitude of the largest double
    overflow; they are therefore taken with their overflow. *)
Definition fibonacci_levels (df : DataFrame) (lookback : nat) : outcome dict :=
  if (length df <? 2)%nat then Returned []
  else
    let window := tail lookback df in
    let high := series_max (col High window) in
    let low := series_min (col Low window) in
    let diff := overflow (high - low)%F in
    Returned
      [ ("Swing High", high);
        ("Swing Low", low);
        ("0.0", high);
        ("0.236", overflow (high - overflow (Num (236 # 1000) * diff))%F);
        ("0.382", overflow (high - overflow (Num (382 # 1000) * diff))%F);
        ("0.5", overflow (high - overflow (Num (5 # 10) * diff))%F);
        ("0.618", overflow (high - overflow (Num (618 # 1000) * diff))%F);
        ("0.786", overflow (high - overflow (Num (786 # 1000) * diff))%F);
        ("1.0", low) ]%string.


(** * app10.py *)

Module App10.


(** [df["Close"].ewm(span=span).mean()]: pandas' default is adjust=True. *)
Definition EMA (span : nat) (close : Series) : outcome Series :=
  ewm_mean true span close.

Definition EMA9 := EMA 9.

(** (BB_MID, BB_UP, BB_LOW) *)
Definition bollinger `{SqrtModel} (close : Series) : Series * Series * Series :=
  let bb_mid := rolling_mean 20 close in
  let bb_std := rolling_std 1 20 close in
  (bb_mid,
   s_add bb_mid (s_scale (Num 2) bb_std),
   s_sub bb_mid (s_scale (Num 2) bb_std)).

(** The RSI lines of the script, for a rolling window of [window] bars. *)
Definition avg_gain (window : nat) (close : Series) : Series :=
  rolling_mean window (clip_lower (Num 0) (diff close)).
Definition avg_loss (window : nat) (close : Series) : Series :=
  rolling_mean window (s_neg (clip_upper (Num 0) (diff close))).
Definition rsi_of (window : nat) (close : Series) : Series :=
  let rs := s_div (avg_gain window close) (avg_loss window close) in
  map (fun r => (Num 100 - Num 100 / (Num 1 + r))%F) rs.

(** The script's window is 14. *)
Definition RSI (close : Series) : Series := rsi_of 14 close.

(** (MACD, Signal) *)
Definition MACD (close : Series) : outcome (Series * Series) :=
  ema12 <- ewm_mean true 12 close ;;
  ema26 <- ewm_mean true 26 close ;;
  let macd := s_sub ema12 ema26 in
  signal <- ewm_mean true 9 macd ;;
  Returned (macd, signal).

(** The scalars read from the last row. *)
Record Latest : Type := mk_latest {
  close : fval;
  ema9 : fval;
  ema21 : fval;
  ema50 : fval;
  rsi : fval;
  macd : fval;
  signal : fval;
  volume : fval;
  avg_volume : fval;
  bb_mid_val : fval
}.

Definition incr (cond : bool) (bullish : nat) : nat :=
  if cond then S bullish else bullish.

Definition checks : nat := 6.

Definition bullish_count (l : Latest) : nat :=
  let bullish := 0%nat in
  let bullish := incr (fgtb (close l) (ema21 l) && fgtb (ema21 l) (ema50 l)) bullish in
  let bullish := incr (fgtb (close l) (ema9 l)) bullish in
  let bullish := incr (fgtb (rsi l) (Num 55)) bullish in
  let bullish := incr (fgtb (macd l) (signal l)) bullish in
  let bullish := incr (fgtb (volume l) (avg_volume l)) bullish in
  let bullish := incr (fgtb (close l) (bb_mid_val l)) bullish in
  bullish.

(** Python's [int(x)]: truncation toward zero. *)
Definition py_int (q : Q) : Z := Z.quot (Qnum q) (Zpos (Qden q)).

(** [int((bullish / checks) * 100)] *)
Definition confidence_of (bullish : nat) : Z :=
  py_int ((Qnat bullish / Qnat checks) * 100).

Definition confidence (l : Latest) : Z := confidence_of (bullish_count l).

Inductive verdict : Type := BUY | SELL | HOLD.

Definition verdict_of (conf : Z) : verdict :=
  if (conf >=? 70)%Z then BUY
  else if (conf <=? 35)%Z then SELL
  else HOLD.

Definition final_verdict (l : Latest) : verdict := verdict_of (confidence l).



End App10.

(** * app11.py *)

Module App11.

Definition MIN_BARS : nat := 160.

(** [ta.volatility.BollingerBands(close, window)] with its default
    [window_dev = 2]: the bands are the rolling mean plus and minus twice
    the rolling population standard deviation (ddof = 0) over [window]
    bars, [min_periods = window]. *)
Definition bollinger_hband `{SqrtModel} (close : Series) (window : nat) : Series :=
  s_add (rolling_mean window close) (s_scale (Num 2) (rolling_std 0 window close)).
Definition bollinger_lband `{SqrtModel} (close : Series) (window : nat) : Series :=
  s_sub (rolling_mean window close) (s_scale (Num 2) (rolling_std 0 window close)).

Definition safe_bb `{SqrtModel} (series : Series) (window : nat) : Series * Series :=
  (bollinger_hband series window, bollinger_lband series window).

Definition BB60_width `{SqrtModel} (close : Series) : Series :=
  let '(bb60_h, bb60_l) := safe_bb close 60 in
  s_div (s_sub bb60_h bb60_l) close.

(** The aggregations of [resample(...).agg({...})] over the bars of one
    bin, as pandas computes them: "first" and "last" are the first and
    the last value that is not NaN, "max" and "min" skip NaN, "sum" adds
    the values that are not NaN; a bin without values gives NaN, and 0
    for the sum. *)
Definition agg_first (s : Series) : fval :=
  match filter (fun v => negb (is_nan v)) s with
  | [] => NaN
  | v :: _ => v
  end.
Definition agg_last (s : Series) : fval := agg_first (rev s).
Definition agg_sum (s : Series) : fval :=
  fold_left fadd (filter (fun v => negb (is_nan v)) s) (Num 0).

Definition agg_bar (bin : DataFrame) : Bar :=
  mk_bar (agg_first (col Open bin)) (series_max (col High bin))
         (series_min (col Low bin)) (agg_last (col Close bin))
         (agg_sum (col Volume bin)).

(** [df.dropna()]: the rows without any NaN. *)
Definition dropna (df : DataFrame) : DataFrame :=
  filter (fun b => negb (is_nan (Open b) || is_nan (High b) || is_nan (Low b)
                         || is_nan (Close b) || is_nan (Volume b))) df.

(** The "2h" and "10m" branches of [fetch_data] from the downloaded bars
    on, these grouped into the bins of the resampling rule. *)
Definition resample_bars (bins : list DataFrame) : DataFrame :=
  dropna (map agg_bar bins).

(** One row of the frame once the indicator columns are in place; the
    columns "+DI_6", "-DI_6", "+DI_20" and "-DI_20" are spelled out. *)
Record Row : Type := mk_row {
  Close : fval;
  RSI : fval;
  WR : fval;
  plus_DI_6 : fval;
  minus_DI_6 : fval;
  plus_DI_20 : fval;
  minus_DI_20 : fval;
  MA8 : fval
}.

Definition PUT_ENTRY (r : Row) : bool :=
  fleb (WR r) (Num (-80)) &&
  fleb (RSI r) (Num 40) &&
  fgeb (minus_DI_6 r) (Num 35) &&
  fleb (plus_DI_6 r) (Num 15) &&
  fgeb (minus_DI_20 r) (Num 30) &&
  fleb (plus_DI_20 r) (Num 15).

Definition DMI_DIFF (r : Row) : fval :=
  fabs (plus_DI_20 r - minus_DI_20 r)%F.

Definition PUT_EXIT (r : Row) : bool :=
  fltb (DMI_DIFF r) (Num 10) || fgtb (Close r) (MA8 r).

(** The three messages of the strategy status. *)
Inductive status : Type :=
| PUT_ENTRY_SIGNAL_ACTIVE
| EXIT_SIGNAL_TRIGGERED
| NO_ACTIVE_SIGNAL.

Definition strategy_status (latest : Row) : status :=
  if PUT_ENTRY latest then PUT_ENTRY_SIGNAL_ACTIVE
  else if PUT_EXIT latest then EXIT_SIGNAL_TRIGGERED
  else NO_ACTIVE_SIGNAL.

End App11.

(** * app12.py *)

(** Rounding of an exact result to a double, by what the comparisons of
    the exit calculator depend on: rounding to nearest is monotone, odd
    and leaves the integers up to 2^53 as they are. *)
Class Rounding : Type := {
  rnd : Q -> Q;
  rnd_compat : forall x y, x == y -> rnd x == rnd y;
  rnd_monotone : forall x y, x <= y -> rnd x <= rnd y;
  rnd_opp : forall x, rnd (- x) == - rnd x;
  rnd_integer : forall z : Z,
      (Z.abs z <= 2 ^ 53)%Z -> rnd (inject_Z z) == inject_Z z
}.

Module App12.

(** The choices of the timeframe radio button: "2 HOURS", "10 MINUTES"
    and "2 MINUTES". *)
Inductive timeframe : Type :=
| TWO_HOURS
| TEN_MINUTES
| TWO_MINUTES.

(** What the number inputs of the entry tab hold.  A [number_input]
    returns a finite float. *)
Record Typed : Type := mk_typed {
  typed_wr : Q;
  typed_rsi : Q;
  typed_bb60 : Q;
  typed_dmi6_neg : Q;
  typed_dmi6_pos : Q;
  typed_dmi20_neg : Q;
  typed_dmi20_pos : Q
}.

(** The variables of the entry tab: [None] until an input of the selected
    timeframe sets them. *)
Record Inputs : Type := mk_inputs {
  wr_input : option Q;
  rsi_input : option Q;
  bb60_input : option Q;
  dmi6_neg : option Q;
  dmi6_pos : option Q;
  dmi20_neg : option Q;
  dmi20_pos : option Q
}.

Definition collect_inputs (selected_tf : timeframe) (t : Typed) : Inputs :=
  let momentum :=
    match selected_tf with TWO_HOURS | TEN_MINUTES => true | _ => false end in
  let bands :=
    match selected_tf with TEN_MINUTES => true | _ => false end in
  let dmi :=
    match selected_tf with TEN_MINUTES | TWO_MINUTES => true | _ => false end in
  mk_inputs
    (if momentum then Some (typed_wr t) else None)
    (if momentum then Some (typed_rsi t) else None)
    (if bands then Some (typed_bb60 t) else None)
    (if dmi then Some (typed_dmi6_neg t) else None)
    (if dmi then Some (typed_dmi6_pos t) else None)
    (if dmi then Some (typed_dmi20_neg t) else None)
    (if dmi then Some (typed_dmi20_pos t) else None).

(** [a <= b] and [a >= b] on a variable and a constant: Python raises a
    [TypeError] when the variable is still [None]. *)
Definition py_le (a b : option Q) : outcome bool :=
  match a, b with
  | Some x, Some y => Returned (Qle_bool x y)
  | _, _ => Raised "TypeError"
  end.
Definition py_ge (a b : option Q) : outcome bool := py_le b a.

(** [lo <= x <= hi]: the second comparison is made only when the first
    holds. *)
Definition py_between (lo : Q) (x : option Q) (hi : Q) : outcome bool :=
  first <- py_le (Some lo) x ;;
  if first then py_le x (Some hi) else Returned false.

(** [a >= p and b <= q], with Python's short circuit. *)
Definition py_ge_and_le (a : option Q) (p : Q) (b : option Q) (q : Q)
  : outcome bool :=
  first <- py_ge a (Some p) ;;
  if first then py_le b (Some q) else Returned false.

(** One line of [check_list]: the indicator it is about and whether it is
    a pass line or a fail line. *)
Record item : Type := mk_item {
  indicator : string;
  passed : bool
}.

(** The state of the logic processor: [check_list] and
    [all_conditions_met]. *)
Definition checker_state : Type := (list item * bool)%type.

(** One [if cond: append the pass line / else: append the fail line and
    clear the flag] block. *)
Definition check (name : string) (cond : outcome bool) (st : checker_state)
  : outcome checker_state :=
  ok <- cond ;;
  let '(check_list, all_conditions_met) := st in
  Returned (check_list ++ [mk_item name ok],
            if ok then all_conditions_met else false).

Definition check_entry (selected_tf : timeframe) (i : Inputs)
  : outcome checker_state :=
  let st := ([], true) in
  match selected_tf with
  | TWO_HOURS =>
      st <- check "Williams %R(28)" (py_between (-100) (wr_input i) (-80)) st ;;
      check "RSI(20)" (py_between 1 (rsi_input i) 40) st
  | TEN_MINUTES =>
      st <- check "BB(60)" (py_le (bb60_input i) (Some 35)) st ;;
      st <- check "Williams %R(28)" (py_between (-100) (wr_input i) (-80)) st ;;
      st <- check "RSI(20)" (py_between 1 (rsi_input i) 40) st ;;
      st <- check "DMI(6,6)"
              (py_ge_and_le (dmi6_neg i) 35 (dmi6_pos i) 15) st ;;
      check "DMI(20,20)" (py_ge_and_le (dmi20_neg i) 30 (dmi20_pos i) 15) st
  | TWO_MINUTES =>
      st <- check "DMI(6,6)"
              (py_ge_and_le (dmi6_neg i) 35 (dmi6_pos i) 15) st ;;
      check "DMI(20,20)" (py_ge_and_le (dmi20_neg i) 30 (dmi20_pos i) 15) st
  end.

(** The two messages of the 2-minute exit calculator. *)
Inductive dmi_message : Type :=
| EXIT_SIGNAL
| HOLD_SIGNAL.

(** The difference of the two typed values is a double: the exact
    difference rounded, an infinity where it overflows. *)
Definition dmi_exit {R : Rounding} (exit_dmi_pos exit_dmi_neg : Q)
  : dmi_message :=
  let diff := fabs (overflow (Num (rnd (exit_dmi_pos - exit_dmi_neg)))) in
  if fltb diff (Num 10) then EXIT_SIGNAL else HOLD_SIGNAL.

(** The messages of the 10-minute exit checker, in the order shown. *)
Inductive ma_message : Type :=
| EXIT_WARNING
| EXIT_SIGNAL_CONFIRMED
| HOLD_BELOW_MA.

Definition ma_cross (ma8_val current_price : Q) (previous_price : option Q)
  : list ma_message :=
  if Qltb ma8_val current_price then
    EXIT_WARNING ::
    match previous_price with
    | Some p =>
        if Qle_bool p ma8_val && Qltb ma8_val current_price
        then [EXIT_SIGNAL_CONFIRMED] else []
    | None => []
    end
  else [HOLD_BELOW_MA].

End App12.

(** * Double precision

    The lines of [add_adx] once more, over the binary64 numbers the code
    computes with (Rocq's primitive floats), for the inputs at which
    rounding decides what a claim says.  The rolling sum and mean follow
    pandas' [roll_sum] and [roll_mean]: compensated summation, the value
    that leaves the window removed and the new one added. *)

Module F64.
Import PrimFloat.
Local Open Scope float_scope.

Definition Series := list float.

Record Bar : Type := mk_bar {
  Open : float;
  High : float;
  Low : float;
  Close : float;
  Volume : float
}.

Definition DataFrame := list Bar.

Definition col (f : Bar -> float) (df : DataFrame) : Series := map f df.

(** An integer as a double. *)
Definition of_nat (n : nat) : float := of_uint63 (Uint63.of_Z (Z.of_nat n)).

Definition s_add (a b : Series) : Series := zip_with add a b.
Definition s_sub (a b : Series) : Series := zip_with sub a b.
Definition s_div (a b : Series) : Series := zip_with div a b.
Definition s_scale (k : float) (a : Series) : Series := map (mul k) a.
Definition s_abs (a : Series) : Series := map abs a.

(** [series.replace(0, np.nan)] *)
Definition replace_zero_nan (a : Series) : Series :=
  map (fun v => if v =? 0 then nan else v) a.

(** [_prep_values]: infinities become NaN. *)
Definition prep (a : Series) : Series :=
  map (fun v => if is_infinity v then nan else v) a.

(** The state of pandas' [roll_sum] and [roll_mean]. *)
Record roll_state : Type := mk_roll {
  nobs : nat;
  sum_x : float;
  neg_ct : nat;
  compensation_add : float;
  compensation_remove : float;
  num_consecutive_same_value : nat;
  prev_value : float
}.

(** [add_sum] and [add_mean]: Kahan summation of a value that is not
    NaN; [add_mean] also counts the negative values. *)
Definition add_value (count_sign : bool) (val : float) (st : roll_state)
  : roll_state :=
  if is_nan val then st
  else
    let y := val - compensation_add st in
    let t := sum_x st + y in
    mk_roll (S (nobs st)) t
      (if count_sign && get_sign val then S (neg_ct st) else neg_ct st)
      (t - sum_x st - y) (compensation_remove st)
      (if val =? prev_value st then S (num_consecutive_same_value st) else 1%nat)
      val.

(** [remove_sum] and [remove_mean] *)
Definition remove_value (count_sign : bool) (val : float) (st : roll_state)
  : roll_state :=
  if is_nan val then st
  else
    let y := - val - compensation_remove st in
    let t := sum_x st + y in
    mk_roll (nobs st - 1) t
      (if count_sign && get_sign val then (neg_ct st - 1)%nat else neg_ct st)
      (compensation_add st) (t - sum_x st - y)
      (num_consecutive_same_value st) (prev_value st).

Definition calc_sum (minp : nat) (st : roll_state) : float :=
  if ((nobs st =? 0) && (minp =? 0))%nat then 0
  else if (minp <=? nobs st)%nat then
    if (nobs st <=? num_consecutive_same_value st)%nat
    then prev_value st * of_nat (nobs st)
    else sum_x st
  else nan.

Definition calc_mean (minp : nat) (st : roll_state) : float :=
  if ((minp <=? nobs st) && (0 <? nobs st))%nat then
    let result := sum_x st / of_nat (nobs st) in
    if (nobs st <=? num_consecutive_same_value st)%nat then prev_value st
    else if (neg_ct st =? 0)%nat && (result <? 0) then 0
    else if (neg_ct st =? nobs st)%nat && (0 <? result) then 0
    else result
  else nan.

(** [values[a:b]] *)
Definition slice (values : Series) (a b : nat) : Series :=
  firstn (b - a) (skipn a values).

(** The bounds of the window that ends at position [i]. *)
Definition window_start (w i : nat) : nat := (i + 1 - w)%nat.
Definition window_end (i : nat) : nat := (i + 1)%nat.

(** One pass of the loop of [roll_sum] and [roll_mean] at position [i]:
    a fresh state when the window does not overlap the one before,
    otherwise the values that left are removed and the new ones added. *)
Definition roll_step (count_sign : bool) (w : nat) (values : Series)
    (st : roll_state) (i : nat) : roll_state :=
  let s := window_start w i in
  let e := window_end i in
  if ((i =? 0) || (window_end (i - 1) <=? s))%nat then
    fold_left (fun st v => add_value count_sign v st) (slice values s e)
      (mk_roll 0 0 0 0 0 0 (nth s values nan))
  else
    let st1 :=
      fold_left (fun st v => remove_value count_sign v st)
        (slice values (window_start w (i - 1)) s) st in
    fold_left (fun st v => add_value count_sign v st)
      (slice values (window_end (i - 1)) e) st1.

Fixpoint roll_loop (count_sign : bool) (calc : nat -> roll_state -> float)
    (w : nat) (values : Series) (st : roll_state) (positions : list nat)
  : Series :=
  match positions with
  | [] => []
  | i :: rest =>
      let st' := roll_step count_sign w values st i in
      calc w st' :: roll_loop count_sign calc w values st' rest
  end.

(** [rolling(w).sum()] and [rolling(w).mean()], [min_periods = w]. *)
Definition rolling_sum (w : nat) (a : Series) : Series :=
  roll_loop false calc_sum w (prep a) (mk_roll 0 0 0 0 0 0 nan)
    (seq 0 (length a)).
Definition rolling_mean (w : nat) (a : Series) : Series :=
  roll_loop true calc_mean w (prep a) (mk_roll 0 0 0 0 0 0 nan)
    (seq 0 (length a)).

(** [np.max] of a column of three values: NaN as soon as one is NaN. *)
Definition np_max2 (a b : float) : float :=
  if is_nan a || is_nan b then nan else if a <? b then b else a.
Definition np_max3 (a b c : float) : float := np_max2 (np_max2 a b) c.

(** [np.where((a > b) & (a > 0), a, 0.0)] *)
Definition dm_where (a b : float) : float :=
  if (b <? a) && (0 <? a) then a else 0.

Definition mk_series (data : Series) (index_len : nat) : outcome Series :=
  if (length data =? index_len)%nat then Returned data else Raised "ValueError".

Definition add_adx (df : DataFrame) (period : nat)
  : outcome (Series * Series * Series) :=
  let high := col High df in
  let low := col Low df in
  let close := col Close df in
  if (length close <? 2)%nat then
    let n := length df in
    a <- mk_series (repeat nan n) (length df) ;;
    b <- mk_series (repeat nan n) (length df) ;;
    c <- mk_series (repeat nan n) (length df) ;;
    Returned (a, b, c)
  else
    let tr1 := s_sub (tl high) (tl low) in
    let tr2 := s_abs (s_sub (tl high) (removelast close)) in
    let tr3 := s_abs (s_sub (tl low) (removelast close)) in
    let tr := zip_with3 np_max3 tr1 tr2 tr3 in
    let up := s_sub (tl high) (removelast high) in
    let down := s_sub (removelast low) (tl low) in
    let plus_dm := zip_with dm_where up down in
    let minus_dm := zip_with dm_where down up in
    let tr_smooth := rolling_sum period tr in
    let plus_smooth := rolling_sum period plus_dm in
    let minus_smooth := rolling_sum period minus_dm in
    let plus_di := s_scale 100 (s_div plus_smooth (replace_zero_nan tr_smooth)) in
    let minus_di := s_scale 100 (s_div minus_smooth (replace_zero_nan tr_smooth)) in
    let dx := s_div (s_scale 100 (s_abs (s_sub plus_di minus_di)))
                    (replace_zero_nan (s_add plus_di minus_di)) in
    let adx := rolling_mean period dx in
    let pad_len := (length df - length adx)%nat in
    plus_di_full <- mk_series (repeat nan pad_len ++ plus_di) (length df) ;;
    minus_di_full <- mk_series (repeat nan pad_len ++ minus_di) (length df) ;;
    adx_full <- mk_series (repeat nan pad_len ++ adx) (length df) ;;
    Returned (plus_di_full, minus_di_full, adx_full).

End F64.

(** * Properties *)

(** ** Lists and element-wise operations *)

Section ListFacts.
Context {A B C D : Type}.

Lemma zip_with_length (f : A -> B -> C) (xs : list A) (ys : list B) :
  length (zip_with f xs ys) = Nat.min (length xs) (length ys).
Proof.
  revert ys; induction xs as [|x xs IH]; intros [|y ys]; simpl; auto.
Qed.

Lemma zip_with_nth_error (f : A -> B -> C) (xs : list A) (ys : list B) i :
  nth_error (zip_with f xs ys) i =
  match nth_error xs i, nth_error ys i with
  | Some x, Some y => Some (f x y)
  | _, _ => None
  end.
Proof.
  revert ys i; induction xs as [|x xs IH]; intros [|y ys] [|i]; simpl; auto.
  - destruct (nth_error xs i); reflexivity.
Qed.

Lemma zip_with3_length (f : A -> B -> C -> D) xs ys zs :
  length (zip_with3 f xs ys zs) =
  Nat.min (length xs) (Nat.min (length ys) (length zs)).
Proof.
  revert ys zs; induction xs as [|x xs IH]; intros [|y ys] [|z zs]; simpl; auto.
Qed.

Lemma zip_with3_nth_error (f : A -> B -> C -> D) xs ys zs i :
  nth_error (zip_with3 f xs ys zs) i =
  match nth_error xs i, nth_error ys i, nth_error zs i with
  | Some x, Some y, Some z => Some (f x y z)
  | _, _, _ => None
  end.
Proof.
  revert ys zs i; induction xs as [|x xs IH]; intros [|y ys] [|z zs] [|i];
    simpl; auto;
    repeat match goal with
           | |- context [match nth_error ?l ?j with _ => _ end] =>
               destruct (nth_error l j)
           end; reflexivity.
Qed.

Lemma map_nth_error' (f : A -> B) (xs : list A) i :
  nth_error (map f xs) i = option_map f (nth_error xs i).
Proof.
  revert i; induction xs as [|x xs IH]; intros [|i]; simpl; auto.
Qed.

Lemma tl_length (xs : list A) : length (tl xs) = (length xs - 1)%nat.
Proof. destruct xs; simpl; lia. Qed.

Lemma removelast_length (xs : list A) :
  length (removelast xs) = (length xs - 1)%nat.
Proof.
  induction xs as [|x [|y xs] IH]; simpl in *; auto. lia.
Qed.

Lemma tl_nth_error (xs : list A) i : nth_error (tl xs) i = nth_error xs (S i).
Proof. destruct xs; simpl; auto. destruct i; reflexivity. Qed.

Lemma removelast_nth_error (xs : list A) i :
  (S i < length xs)%nat -> nth_error (removelast xs) i = nth_error xs i.
Proof.
  revert i; induction xs as [|x [|y xs] IH]; intros i Hi; simpl in *; try lia.
  destruct i as [|i]; simpl; auto. apply IH. lia.
Qed.
End ListFacts.

Lemma repeat_nth_error {A : Type} (x : A) n i :
  (i < n)%nat -> nth_error (repeat x n) i = Some x.
Proof.
  revert i; induction n as [|n IH]; intros [|i] Hi; simpl; try lia; auto.
  apply IH; lia.
Qed.

Lemma seq_nth_error start len i :
  (i < len)%nat -> nth_error (seq start len) i = Some (start + i)%nat.
Proof.
  revert start i; induction len as [|len IH]; intros start [|i] Hi; simpl; try lia.
  - f_equal; lia.
  - rewrite IH by lia. f_equal; lia.
Qed.

Lemma nth_error_in_range {A : Type} (xs : list A) i x :
  nth_error xs i = Some x -> (i < length xs)%nat.
Proof. intros H. apply nth_error_Some. congruence. Qed.

(** ** Lengths of the Series operations *)

Lemma rolling_length agg w a : length (rolling agg w a) = length a.
Proof. unfold rolling. now rewrite length_map, length_seq. Qed.

Lemma rolling_nth_error agg w a i :
  (i < length a)%nat ->
  nth_error (rolling agg w a) i =
  Some (agg w (observations (window_at w (map prep a) i))).
Proof.
  intros Hi. unfold rolling.
  rewrite map_nth_error', seq_nth_error by exact Hi. reflexivity.
Qed.

Lemma rolling_std_length {S : SqrtModel} ddof w a :
  length (rolling_std ddof w a) = length a.
Proof. unfold rolling_std, rolling_var. now rewrite length_map, rolling_length. Qed.

Lemma shift_length k a : length (shift k a) = length a.
Proof.
  unfold shift. rewrite firstn_length_le; auto.
  rewrite length_app, repeat_length. lia.
Qed.

Lemma ewm_loop_length adjust alpha st vals :
  length (ewm_loop adjust alpha st vals) = length vals.
Proof.
  revert st; induction vals as [|v vals IH]; intros st; simpl; auto.
Qed.

Lemma prep_inf_length a : length (prep_inf a) = length a.
Proof. apply length_map. Qed.

Lemma prep_inf_num (xs : list Q) : prep_inf (map Num xs) = map Num xs.
Proof.
  unfold prep_inf. rewrite map_map. apply map_ext. reflexivity.
Qed.

Lemma ewm_mean_returns adjust span a :
  (1 <= span)%nat ->
  exists r, ewm_mean adjust span a = Returned r /\ length r = length a.
Proof.
  intros Hs. unfold ewm_mean.
  destruct (Nat.ltb_spec span 1) as [Hlt|_]; [lia|].
  rewrite <- (prep_inf_length a).
  destruct (prep_inf a) as [|v0 rest].
  - exists []. auto.
  - eexists. split; [reflexivity|]. simpl. now rewrite ewm_loop_length.
Qed.

Lemma ewm_mean_raises adjust span a :
  (span < 1)%nat -> ewm_mean adjust span a = Raised "ValueError".
Proof.
  intros Hs. unfold ewm_mean.
  destruct (Nat.ltb_spec span 1) as [_|Hge]; [reflexivity|lia].
Qed.

(** ** The confidence score and the verdict (app10.py) *)

(** The six conditions of the score, in the order of the script. *)
Definition six_checks (l : App10.Latest) : list bool :=
  [ fgtb (App10.close l) (App10.ema21 l) && fgtb (App10.ema21 l) (App10.ema50 l);
    fgtb (App10.close l) (App10.ema9 l);
    fgtb (App10.rsi l) (Num 55);
    fgtb (App10.macd l) (App10.signal l);
    fgtb (App10.volume l) (App10.avg_volume l);
    fgtb (App10.close l) (App10.bb_mid_val l) ].

(** C10: the confidence is int((bullish/6)*100) for bullish the number of
    the six checks that hold; it is one of 0, 16, 33, 50, 66, 83, 100; the
    verdict is BUY exactly when at least five checks hold and SELL exactly
    when at most two hold. *)
Theorem confidence_score_and_verdict (l : App10.Latest) :
  App10.bullish_count l = count_occ Bool.bool_dec (six_checks l) true /\
  App10.confidence l =
    App10.py_int ((Qnat (App10.bullish_count l) / 6) * 100) /\
  In (App10.confidence l) [0; 16; 33; 50; 66; 83; 100]%Z /\
  (0 <= App10.confidence l <= 100)%Z /\
  (App10.final_verdict l = App10.BUY <-> (5 <= App10.bullish_count l)%nat) /\
  (App10.final_verdict l = App10.SELL <-> (App10.bullish_count l <= 2)%nat).
Proof.
  unfold App10.final_verdict, App10.confidence, App10.bullish_count, six_checks.
  destruct (fgtb (App10.close l) (App10.ema21 l) && fgtb (App10.ema21 l) (App10.ema50 l));
  destruct (fgtb (App10.close l) (App10.ema9 l));
  destruct (fgtb (App10.rsi l) (Num 55));
  destruct (fgtb (App10.macd l) (App10.signal l));
  destruct (fgtb (App10.volume l) (App10.avg_volume l));
  destruct (fgtb (App10.close l) (App10.bb_mid_val l));
  vm_compute;
  (repeat split; try (intros; discriminate); try (intros; lia); try reflexivity;
   try (intros H; inversion H); tauto).
Qed.

(** ** MACD and the order of its spans (tradingbot.py) *)

Lemma add_macd_span_below_one df fast slow signal :
  (fast < 1 \/ slow < 1 \/ signal < 1)%nat ->
  add_macd df fast slow signal = Raised "ValueError".
Proof.
  intros H. unfold add_macd.
  destruct (Nat.lt_ge_cases fast 1) as [Hf|Hf].
  { rewrite (ewm_mean_raises false fast _ Hf). reflexivity. }
  destruct (ewm_mean_returns false fast (col Close df) Hf) as (ef & -> & _).
  simpl. destruct (Nat.lt_ge_cases slow 1) as [Hs|Hs].
  { rewrite (ewm_mean_raises false slow _ Hs). reflexivity. }
  destruct (ewm_mean_returns false slow (col Close df) Hs) as (es & -> & _).
  simpl. rewrite ewm_mean_raises by lia. reflexivity.
Qed.

(** C6, as the code has it: MACD does not compare fast with slow.  For
    all spans that are at least 1, in any order, it returns the three
    series, each as long as the input, and the histogram is the MACD line
    minus the signal line. *)
Theorem add_macd_ignores_span_order df fast slow signal :
  (1 <= fast)%nat -> (1 <= slow)%nat -> (1 <= signal)%nat ->
  exists macd macd_signal macd_hist,
    add_macd df fast slow signal = Returned (macd, macd_signal, macd_hist) /\
    length macd = length df /\
    length macd_signal = length df /\
    length macd_hist = length df /\
    macd_hist = s_sub macd macd_signal.
Proof.
  intros Hf Hs Hg. unfold add_macd.
  destruct (ewm_mean_returns false fast (col Close df) Hf) as (ef & -> & Lf).
  destruct (ewm_mean_returns false slow (col Close df) Hs) as (es & -> & Ls).
  simpl.
  destruct (ewm_mean_returns false signal (s_sub ef es) Hg) as (sg & -> & Lg).
  simpl. do 3 eexists. split; [reflexivity|].
  unfold col in *. rewrite length_map in *.
  assert (Lm : length (s_sub ef es) = length df).
  { unfold s_sub. rewrite zip_with_length. lia. }
  repeat split; try lia.
  unfold s_sub in *. rewrite zip_with_length. lia.
Qed.

(** Three bars, and spans with fast above slow. *)
Definition three_bars : DataFrame :=
  [ mk_bar (Num 10) (Num 12) (Num 9) (Num 11) (Num 1000);
    mk_bar (Num 11) (Num 13) (Num 10) (Num 12) (Num 1500);
    mk_bar (Num 12) (Num 12) (Num 8) (Num 9) (Num 900) ].

Lemma add_macd_ignores_span_order_witness :
  exists macd macd_signal macd_hist,
    add_macd three_bars 26 12 9 = Returned (macd, macd_signal, macd_hist) /\
    length macd = length three_bars /\
    length macd_signal = length three_bars /\
    length macd_hist = length three_bars /\
    macd_hist = s_sub macd macd_signal.
Proof.
  apply (add_macd_ignores_span_order three_bars 26 12 9); lia.
Defined.

(** With fast = 26 above slow = 12 the call returns; no exception is
    raised. *)
Lemma add_macd_fast_above_slow_returns :
  (12 <= 26)%nat /\
  (exists r, add_macd three_bars 26 12 9 = Returned r) /\
  add_macd three_bars 26 12 9 <> Raised "InvalidParameter".
Proof.
  split; [lia|]. split.
  - eexists. vm_compute. reflexivity.
  - vm_compute. discriminate.
Qed.

(** ** The order of floating values *)

(** [a <= b] on values that are not NaN. *)
Definition fle (a b : fval) : Prop :=
  match a, b with
  | NaN, _ | _, NaN => False
  | NInf, _ => True
  | _, PInf => True
  | Num x, Num y => x <= y
  | _, _ => False
  end.

Lemma Qltb_true x y : Qltb x y = true <-> x < y.
Proof.
  unfold Qltb. rewrite negb_true_iff.
  split; intros H.
  - apply Qnot_le_lt. intros Hle. apply Qle_bool_iff in Hle. congruence.
  - destruct (Qle_bool y x) eqn:E; auto.
    apply Qle_bool_iff in E. apply Qle_not_lt in E. contradiction.
Qed.

Lemma Qltb_false x y : Qltb x y = false <-> y <= x.
Proof.
  unfold Qltb. rewrite negb_false_iff. apply Qle_bool_iff.
Qed.

Lemma fle_refl a : is_nan a = false -> fle a a.
Proof. destruct a; simpl; intros; try discriminate; auto. apply Qle_refl. Qed.

Lemma fle_trans a b c : fle a b -> fle b c -> fle a c.
Proof.
  destruct a, b, c; simpl; intros; try contradiction; auto.
  eapply Qle_trans; eauto.
Qed.

Lemma fgtb_true_fle a b : fgtb a b = true -> fle b a.
Proof.
  destruct a, b; simpl; intros H; try discriminate; auto.
  apply Qltb_true in H. now apply Qlt_le_weak.
Qed.

Lemma fgtb_false_fle a b :
  is_nan a = false -> is_nan b = false -> fgtb a b = false -> fle a b.
Proof.
  destruct a, b; simpl; intros Ha Hb H; try discriminate; auto.
  now apply Qltb_false in H.
Qed.

(** ** Maximum and minimum of a Series *)

Section Extremum.
Variable better : fval -> fval -> bool.
Variable R : fval -> fval -> Prop.
Hypothesis R_refl : forall a, is_nan a = false -> R a a.
Hypothesis R_trans : forall a b c, R a b -> R b c -> R a c.
Hypothesis better_true : forall v acc, better v acc = true -> R acc v.
Hypothesis better_false :
  forall v acc, is_nan v = false -> is_nan acc = false ->
                better v acc = false -> R v acc.

Definition pick (acc v : fval) : fval :=
  if is_nan v then acc else if is_nan acc then v
  else if better v acc then v else acc.

Lemma fold_pick_from_value a : forall acc,
  is_nan acc = false ->
  let r := fold_left pick a acc in
  is_nan r = false /\ R acc r /\
  (forall x, In x a -> is_nan x = false -> R x r) /\
  (r = acc \/ In r a).
Proof.
  induction a as [|v a IH]; intros acc Hacc; simpl.
  - repeat split; auto; intros x [].
  - assert (Hp : is_nan (pick acc v) = false /\ R acc (pick acc v) /\
                 (is_nan v = false -> R v (pick acc v)) /\
                 (pick acc v = acc \/ pick acc v = v)).
    { unfold pick. destruct (is_nan v) eqn:Ev.
      - repeat split; auto. intros; discriminate.
      - rewrite Hacc. destruct (better v acc) eqn:Eb; repeat split; auto. }
    destruct Hp as (Hn & Ha & Hv & Hor).
    destruct (IH (pick acc v) Hn) as (Hr & Hpr & Hall & Hin).
    repeat split; auto.
    + eapply R_trans; eauto.
    + intros x [<-|Hx] Hx'; [eapply R_trans; eauto | auto].
    + destruct Hin as [->|Hin]; [|auto].
      destruct Hor as [->| ->]; auto.
Qed.

Lemma fold_pick_spec a :
  let r := fold_left pick a NaN in
  is_nan r = false ->
  In r a /\ (forall x, In x a -> is_nan x = false -> R x r).
Proof.
  induction a as [|v a IH]; simpl; intros Hr.
  - discriminate.
  - destruct (is_nan v) eqn:Ev.
    + assert (Hp : pick NaN v = NaN) by (unfold pick; now rewrite Ev).
      rewrite Hp in *. destruct (IH Hr) as (Hin & Hall).
      split; auto. intros x [<-|Hx] Hx'; [congruence|auto].
    + assert (Hp : pick NaN v = v) by (unfold pick; now rewrite Ev).
      rewrite Hp in *.
      destruct (fold_pick_from_value a v Ev) as (_ & Hv & Hall & Hin).
      split.
      * destruct Hin as [->|Hin]; auto.
      * intros x [<-|Hx] Hx'; auto.
Qed.
End Extremum.

Lemma series_max_spec a h :
  series_max a = Num h ->
  In (Num h) a /\ (forall x, In x a -> is_nan x = false -> fle x (Num h)).
Proof.
  intros H.
  pose proof (fold_pick_spec fgtb fle fle_refl fle_trans fgtb_true_fle
                fgtb_false_fle a) as Hs.
  change (fold_left (pick fgtb) a NaN) with (series_max a) in Hs.
  simpl in Hs. rewrite H in Hs. apply Hs. reflexivity.
Qed.

Lemma series_min_spec a l :
  series_min a = Num l ->
  In (Num l) a /\ (forall x, In x a -> is_nan x = false -> fle (Num l) x).
Proof.
  intros H.
  pose proof (fold_pick_spec fltb (fun a b => fle b a)
                fle_refl (fun a b c H1 H2 => fle_trans c b a H2 H1)
                (fun v acc Hb => fgtb_true_fle acc v Hb)
                (fun v acc Hv Ha Hb => fgtb_false_fle acc v Ha Hv Hb) a) as Hs.
  change (fold_left (pick fltb) a NaN) with (series_min a) in Hs.
  simpl in Hs. rewrite H in Hs. apply Hs. reflexivity.
Qed.

(** ** Fibonacci retracement levels (tradingbot.py) *)






(** The two bars of the specification's scenario: High = 110, 100 and
    Low = 90, 95. *)
Definition two_bars : DataFrame :=
  [ mk_bar (Num 100) (Num 110) (Num 90) (Num 105) (Num 1000);
    mk_bar (Num 105) (Num 100) (Num 95) (Num 98) (Num 1000) ].




(** Two bars with a High of 10^308 and a Low of -10^308: the difference
    of the swing high and the swing low overflows, and the inner levels
    are minus infinity, below level "1.0". *)
Definition huge_bars : DataFrame :=
  [ mk_bar (Num 0) (Num (inject_Z (10 ^ 308))) (Num 0) (Num 0) (Num 1000);
    mk_bar (Num 0) (Num 0) (Num (- inject_Z (10 ^ 308))) (Num 0) (Num 1000) ].

Example fibonacci_levels_overflow :
  exists d,
    fibonacci_levels huge_bars 2 = Returned d /\
    dict_get d "0.0" = Some (Num (inject_Z (10 ^ 308))) /\
    dict_get d "0.236" = Some NInf /\
    dict_get d "0.786" = Some NInf /\
    dict_get d "1.0" = Some (Num (- inject_Z (10 ^ 308))).
Proof.
  eexists. split; [vm_compute; reflexivity|].
  repeat split; vm_compute; reflexivity.
Qed.


(** ** Bollinger Bands (tradingbot.py, app10.py) *)

Lemma rolling_mean_entry w a i v :
  nth_error (rolling_mean w a) i = Some v ->
  v = NaN \/ exists m, v = Num m.
Proof.
  intros H. pose proof (nth_error_in_range _ _ _ H) as Hi.
  unfold rolling_mean in *. rewrite rolling_length in Hi.
  rewrite rolling_nth_error in H by exact Hi. injection H as <-.
  unfold calc_mean. destruct (_ && _)%bool; eauto.
Qed.

Lemma zsqrt_entry {S : SqrtModel} v :
  (v = NaN \/ exists q, v = Num q) ->
  zsqrt v = NaN \/ exists s, zsqrt v = Num s /\ 0 <= s.
Proof.
  intros [->|(q & ->)]; simpl; auto.
  destruct (Qltb q 0); right; eexists; split; try reflexivity.
  - apply Qle_refl.
  - apply sqrtQ_nonneg.
Qed.

Lemma rolling_std_entry {S : SqrtModel} ddof w a i v :
  nth_error (rolling_std ddof w a) i = Some v ->
  v = NaN \/ exists s, v = Num s /\ 0 <= s.
Proof.
  intros H. unfold rolling_std in H. rewrite map_nth_error' in H.
  destruct (nth_error (rolling_var ddof w a) i) as [x|] eqn:E; [|discriminate].
  simpl in H. injection H as <-. apply zsqrt_entry.
  pose proof (nth_error_in_range _ _ _ E) as Hi.
  unfold rolling_var in *. rewrite rolling_length in Hi.
  rewrite rolling_nth_error in E by exact Hi. injection E as <-.
  unfold calc_var. destruct (_ && _)%bool; eauto.
Qed.

(** The band values at one position: lower <= mid <= upper, the two
    outer bands lying [k] standard deviations from the middle one. *)
Definition band_values (std : Series) (i : nat) (k u m l : Q) : Prop :=
  l <= m /\ m <= u /\
  exists s, nth_error std i = Some (Num s) /\ 0 <= s /\
            u == m + k * s /\ l == m - k * s.

Lemma bands_from_std (scale : fval -> fval) (k : Q) ma std i u m l :
  0 <= k ->
  (forall s, scale (Num s) = Num (k * s) \/ scale (Num s) = Num (s * k)) ->
  scale NaN = NaN ->
  (forall v, nth_error std i = Some v ->
             v = NaN \/ exists s, v = Num s /\ 0 <= s) ->
  nth_error (s_add ma (map scale std)) i = Some (Num u) ->
  nth_error ma i = Some (Num m) ->
  nth_error (s_sub ma (map scale std)) i = Some (Num l) ->
  band_values std i k u m l.
Proof.
  intros Hk Hscale Hnan Hstd Hu Hm Hl.
  unfold s_add, s_sub in *.
  rewrite zip_with_nth_error, map_nth_error', Hm in Hu, Hl.
  destruct (nth_error std i) as [sv|] eqn:Es; [|discriminate].
  destruct (Hstd sv eq_refl) as [->|(s & -> & Hs)].
  - simpl in Hu. rewrite Hnan in Hu. discriminate.
  - simpl in Hu, Hl.
    assert (Hks : 0 <= k * s) by (apply Qmult_le_0_compat; assumption).
    destruct (Hscale s) as [E|E]; rewrite E in Hu, Hl; simpl in Hu, Hl;
      injection Hu as <-; injection Hl as <-;
      (split; [lra|]); (split; [lra|]);
      exists s; (repeat split; auto; lra).
Qed.

(** C8: wherever the three Bollinger values are defined, lower <= mid <=
    upper, for the bands of tradingbot.py (any period, any k >= 0) and
    for the bands of app10.py (period 20, k = 2); the deviation is the
    rolling standard deviation of the same window as the mean. *)
Theorem bollinger_bands_ordered {S : SqrtModel} (k : Q) (i : nat) :
  0 <= k ->
  (forall df period upper mid lower u m l,
     add_bollinger df period k = Returned (upper, mid, lower) ->
     nth_error upper i = Some (Num u) ->
     nth_error mid i = Some (Num m) ->
     nth_error lower i = Some (Num l) ->
     mid = rolling_mean period (col Close df) /\
     band_values (rolling_std 1 period (col Close df)) i k u m l) /\
  (forall close bb_mid bb_up bb_low u m l,
     App10.bollinger close = (bb_mid, bb_up, bb_low) ->
     nth_error bb_up i = Some (Num u) ->
     nth_error bb_mid i = Some (Num m) ->
     nth_error bb_low i = Some (Num l) ->
     bb_mid = rolling_mean 20 close /\
     band_values (rolling_std 1 20 close) i 2 u m l).
Proof.
  intros Hk. split.
  - intros df period upper mid lower u m l Hret Hu Hm Hl.
    unfold add_bollinger in Hret. injection Hret as <- <- <-.
    split; [reflexivity|].
    eapply (bands_from_std (fun s => (s * Num k)%F)); eauto.
    intros v Hv. eapply rolling_std_entry; eauto.
  - intros close bb_mid bb_up bb_low u m l Hret Hu Hm Hl.
    unfold App10.bollinger in Hret. injection Hret as <- <- <-.
    split; [reflexivity|].
    eapply (bands_from_std (fmul (Num 2))); eauto.
    + lra.
    + intros v Hv. eapply rolling_std_entry; eauto.
Qed.

Lemma bollinger_bands_ordered_witness :
  0 <= 2 /\
  exists upper mid lower u m l,
    @add_bollinger dyadic_sqrt three_bars 3 2 = Returned (upper, mid, lower) /\
    nth_error upper 2 = Some (Num u) /\
    nth_error mid 2 = Some (Num m) /\
    nth_error lower 2 = Some (Num l) /\
    band_values (@rolling_std dyadic_sqrt 1 3 (col Close three_bars)) 2 2 u m l.
Proof.
  assert (H02 : 0 <= 2) by (unfold Qle; simpl; lia).
  split; [exact H02|].
  do 6 eexists.
  split; [vm_compute; reflexivity|].
  split; [vm_compute; reflexivity|].
  split; [vm_compute; reflexivity|].
  split; [vm_compute; reflexivity|].
  destruct (@bollinger_bands_ordered dyadic_sqrt 2 2 H02) as [Htb _].
  eapply Htb; reflexivity.
Defined.

(** ** Bollinger Band width (app11.py) *)

Lemma fdiv_zero_denominator x c :
  c == 0 -> 0 <= x ->
  (x == 0 /\ fdiv (Num x) (Num c) = NaN) \/
  (0 < x /\ fdiv (Num x) (Num c) = PInf).
Proof.
  intros Hc Hx. simpl.
  apply Qeq_bool_iff in Hc. rewrite Hc.
  destruct (Qeq_bool x 0) eqn:E.
  - left. split; auto. now apply Qeq_bool_iff.
  - right.
    assert (Hpos : 0 < x).
    { apply Qle_lt_or_eq in Hx. destruct Hx as [Hx|Hx]; auto.
      symmetry in Hx. apply Qeq_bool_iff in Hx. congruence. }
    split; auto. apply Qltb_true in Hpos. now rewrite Hpos.
Qed.

(** C7, as the code has it: where close[i] is 0 the width
    (upper - lower) / close[i] raises no error; it is undefined (NaN)
    when a band is undefined or the bands coincide, and +infinity when
    the upper band lies above the lower one. *)
Theorem bb_width_at_zero_close {S : SqrtModel} (close : Series) (i : nat) (c : Q) :
  nth_error close i = Some (Num c) ->
  c == 0 ->
  exists w,
    nth_error (App11.BB60_width close) i = Some w /\
    (w = NaN \/ w = PInf) /\
    (w = PInf <->
     exists h l,
       nth_error (App11.bollinger_hband close 60) i = Some (Num h) /\
       nth_error (App11.bollinger_lband close 60) i = Some (Num l) /\
       l < h).
Proof.
  intros Hc Hc0.
  pose proof (nth_error_in_range _ _ _ Hc) as Hi.
  unfold App11.BB60_width, App11.safe_bb, App11.bollinger_hband,
    App11.bollinger_lband, s_div, s_sub, s_add, s_scale.
  rewrite !zip_with_nth_error, !map_nth_error', Hc.
  destruct (nth_error (rolling_mean 60 close) i) as [mv|] eqn:Em.
  2:{ apply nth_error_None in Em. unfold rolling_mean in Em.
      rewrite rolling_length in Em. lia. }
  destruct (nth_error (rolling_std 0 60 close) i) as [sv|] eqn:Es.
  2:{ apply nth_error_None in Es. rewrite rolling_std_length in Es. lia. }
  simpl option_map. cbv iota.
  destruct (rolling_mean_entry _ _ _ _ Em) as [->|(m & ->)].
  { exists NaN. simpl. split; [reflexivity|]. split; [auto|].
    split; [discriminate|]. intros (h & l & H & _). discriminate. }
  destruct (rolling_std_entry _ _ _ _ _ Es) as [->|(s & -> & Hs)].
  { exists NaN. simpl. split; [reflexivity|]. split; [auto|].
    split; [discriminate|]. intros (h & l & H & _). discriminate. }
  cbn [fmul fadd fsub fneg].
  set (x := m + 2 * s + - (m + - (2 * s))).
  assert (Hx : 0 <= x) by (unfold x; lra).
  destruct (fdiv_zero_denominator x c Hc0 Hx) as [(Hx0 & ->)|(Hxp & ->)].
  - exists NaN. split; [reflexivity|]. split; [auto|].
    split; [discriminate|].
    intros (h & l & Hh & Hl & Hlt).
    injection Hh as <-. injection Hl as <-. unfold x in Hx0. lra.
  - exists PInf. split; [reflexivity|]. split; [auto|].
    split; [|reflexivity]. intros _.
    do 2 eexists. split; [reflexivity|]. split; [reflexivity|].
    unfold x in Hxp. lra.
Qed.

(** 160 closes, the least the script accepts: 1 everywhere but for a 0
    in the last bar. *)
Definition closes_ending_at_zero : Series := repeat (Num 1) 159 ++ [Num 0].

Lemma bb_width_at_zero_close_witness :
  exists w,
    nth_error (@App11.BB60_width dyadic_sqrt closes_ending_at_zero) 159 = Some w /\
    (w = NaN \/ w = PInf) /\
    (w = PInf <->
     exists h l,
       nth_error (@App11.bollinger_hband dyadic_sqrt closes_ending_at_zero 60) 159
         = Some (Num h) /\
       nth_error (@App11.bollinger_lband dyadic_sqrt closes_ending_at_zero 60) 159
         = Some (Num l) /\
       l < h).
Proof.
  apply (@bb_width_at_zero_close dyadic_sqrt closes_ending_at_zero 159 0).
  - reflexivity.
  - reflexivity.
Defined.

(** There the width is +infinity, not NaN. *)
Lemma bb_width_infinite_at_zero_close :
  (App11.MIN_BARS <= length closes_ending_at_zero)%nat /\
  nth_error closes_ending_at_zero 159 = Some (Num 0) /\
  nth_error (@App11.BB60_width dyadic_sqrt closes_ending_at_zero) 159 = Some PInf.
Proof.
  split; [vm_compute; lia|]. split; [reflexivity|].
  vm_compute. reflexivity.
Qed.

(** ** What a rolling window sees *)

Lemma observations_in win q : In q (observations win) -> In (Some q) win.
Proof.
  induction win as [|[x|] win IH]; simpl; intros H; auto.
  destruct H as [->|H]; auto.
Qed.

Lemma skipn_in {A : Type} n (xs : list A) x : In x (skipn n xs) -> In x xs.
Proof.
  intros H. rewrite <- (firstn_skipn n xs). apply in_or_app. now right.
Qed.

Lemma firstn_in {A : Type} n (xs : list A) x : In x (firstn n xs) -> In x xs.
Proof.
  intros H. rewrite <- (firstn_skipn n xs). apply in_or_app. now left.
Qed.

Lemma window_at_in {A : Type} w (xs : list A) i x :
  In x (window_at w xs i) -> In x xs.
Proof.
  unfold window_at. intros H. apply skipn_in in H. now apply firstn_in in H.
Qed.

Lemma rolling_observation_in w a i q :
  In q (observations (window_at w (map prep a) i)) -> In (Num q) a.
Proof.
  intros H. apply observations_in, window_at_in in H.
  apply in_map_iff in H. destruct H as (v & Hv & Hin).
  destruct v; simpl in Hv; try discriminate. now injection Hv as ->.
Qed.

Lemma Qsum_nonneg l : (forall q, In q l -> 0 <= q) -> 0 <= Qsum l.
Proof.
  induction l as [|x l IH]; simpl; intros H.
  - apply Qle_refl.
  - assert (0 <= x) by (apply H; auto).
    assert (0 <= Qsum l) by (apply IH; intros; apply H; auto). lra.
Qed.

Lemma Qsum_zero l : (forall q, In q l -> q == 0) -> Qsum l == 0.
Proof.
  induction l as [|x l IH]; simpl; intros H.
  - reflexivity.
  - assert (Hx : x == 0) by (apply H; auto).
    assert (Hl : Qsum l == 0) by (apply IH; intros; apply H; auto).
    rewrite Hx, Hl. reflexivity.
Qed.

Lemma Qnat_pos n : (0 < n)%nat -> 0 < Qnat n.
Proof.
  intros H. unfold Qnat. rewrite <- (Zlt_Qlt 0). lia.
Qed.

Lemma Qmean_nonneg l :
  (0 < length l)%nat -> (forall q, In q l -> 0 <= q) -> 0 <= Qmean l.
Proof.
  intros Hn H. unfold Qmean.
  apply Qle_shift_div_l; [now apply Qnat_pos|].
  pose proof (Qsum_nonneg l H). lra.
Qed.

Lemma Qmean_zero l : (forall q, In q l -> q == 0) -> Qmean l == 0.
Proof.
  intros H. unfold Qmean, Qdiv. rewrite (Qsum_zero l H). ring.
Qed.

Lemma rolling_mean_nonneg w a i m :
  (forall q, In (Num q) a -> 0 <= q) ->
  nth_error (rolling_mean w a) i = Some (Num m) -> 0 <= m.
Proof.
  intros Ha H. pose proof (nth_error_in_range _ _ _ H) as Hi.
  unfold rolling_mean in *. rewrite rolling_length in Hi.
  rewrite rolling_nth_error in H by exact Hi. unfold calc_mean in H.
  destruct (_ && _)%bool eqn:E; [|discriminate].
  injection H as <-. apply andb_prop in E. destruct E as [_ E].
  apply Nat.ltb_lt in E. apply Qmean_nonneg; auto.
  intros q Hq. apply Ha. eapply rolling_observation_in; eauto.
Qed.

Lemma rolling_mean_zero w a i m :
  (forall q, In (Num q) a -> q == 0) ->
  nth_error (rolling_mean w a) i = Some (Num m) -> m == 0.
Proof.
  intros Ha H. pose proof (nth_error_in_range _ _ _ H) as Hi.
  unfold rolling_mean in *. rewrite rolling_length in Hi.
  rewrite rolling_nth_error in H by exact Hi. unfold calc_mean in H.
  destruct (_ && _)%bool; [|discriminate].
  injection H as <-. apply Qmean_zero.
  intros q Hq. apply Ha. eapply rolling_observation_in; eauto.
Qed.

(** ** RSI (app10.py) *)

Lemma zip_with_in {A B C : Type} (f : A -> B -> C) xs ys z :
  In z (zip_with f xs ys) -> exists x y, In x xs /\ In y ys /\ z = f x y.
Proof.
  revert ys; induction xs as [|x xs IH]; intros [|y ys]; simpl; try tauto.
  intros [<-|H].
  - exists x, y. auto.
  - destruct (IH ys H) as (x' & y' & Hx & Hy & ->). exists x', y'. auto.
Qed.

Lemma shift_in k a v : In v (shift k a) -> v = NaN \/ In v a.
Proof.
  unfold shift. intros H. apply firstn_in in H.
  apply in_app_or in H. destruct H as [H|H]; auto.
  apply repeat_spec in H. auto.
Qed.

Lemma gain_nonneg d q : In (Num q) (clip_lower (Num 0) d) -> 0 <= q.
Proof.
  unfold clip_lower. intros H. apply in_map_iff in H.
  destruct H as (v & Hv & _).
  destruct (fltb v (Num 0)) eqn:E.
  - injection Hv as <-. apply Qle_refl.
  - subst v. unfold fltb in E. simpl in E. now apply Qltb_false in E.
Qed.

Lemma diff_constant c n x :
  In x (diff (repeat (Num c) n)) -> x = NaN \/ x = Num (c + - c).
Proof.
  unfold diff, s_sub. intros H. apply zip_with_in in H.
  destruct H as (u & v & Hu & Hv & ->).
  apply repeat_spec in Hu. subst u.
  apply shift_in in Hv. destruct Hv as [->|Hv]; auto.
  apply repeat_spec in Hv. subst v. auto.
Qed.

Lemma gain_constant c n q :
  In (Num q) (clip_lower (Num 0) (diff (repeat (Num c) n))) -> q == 0.
Proof.
  unfold clip_lower. intros H. apply in_map_iff in H.
  destruct H as (v & Hv & Hin).
  apply diff_constant in Hin. destruct Hin as [->| ->].
  - discriminate.
  - destruct (fltb _ _); injection Hv as <-; lra.
Qed.

Lemma loss_constant c n q :
  In (Num q) (s_neg (clip_upper (Num 0) (diff (repeat (Num c) n)))) -> q == 0.
Proof.
  unfold s_neg, clip_upper. rewrite map_map. intros H. apply in_map_iff in H.
  destruct H as (v & Hv & Hin).
  apply diff_constant in Hin. destruct Hin as [->| ->].
  - discriminate.
  - destruct (fgtb _ _); simpl in Hv; injection Hv as <-; lra.
Qed.

Lemma rsi_nth_error window close i :
  nth_error (App10.rsi_of window close) i =
  match nth_error (App10.avg_gain window close) i,
        nth_error (App10.avg_loss window close) i with
  | Some g, Some l => Some (Num 100 - Num 100 / (Num 1 + g / l))%F
  | _, _ => None
  end.
Proof.
  unfold App10.rsi_of, s_div. rewrite map_nth_error', zip_with_nth_error.
  destruct (nth_error _ i); [destruct (nth_error _ i)|]; reflexivity.
Qed.

Lemma avg_gain_length window close :
  length (App10.avg_gain window close) = length close.
Proof.
  unfold App10.avg_gain, rolling_mean, clip_lower, diff, s_sub.
  rewrite rolling_length, length_map, zip_with_length, shift_length. lia.
Qed.

Lemma avg_loss_length window close :
  length (App10.avg_loss window close) = length close.
Proof.
  unfold App10.avg_loss, rolling_mean, s_neg, clip_upper, diff, s_sub.
  rewrite rolling_length, !length_map, zip_with_length, shift_length. lia.
Qed.

(** C4, as the code has it: where both rolling averages are available
    and the average loss is 0, the RSI is 100 when the average gain is
    positive and undefined (NaN, from 0/0) when the average gain is 0
    too; for a constant close the RSI is undefined at every index. *)
Theorem rsi_zero_loss_rule (window : nat) (close : Series) (i : nat) :
  (forall g l,
     nth_error (App10.avg_gain window close) i = Some (Num g) ->
     nth_error (App10.avg_loss window close) i = Some (Num l) ->
     l == 0 ->
     0 <= g /\
     (0 < g -> exists r, nth_error (App10.rsi_of window close) i = Some (Num r)
                         /\ r == 100) /\
     (g == 0 -> nth_error (App10.rsi_of window close) i = Some NaN)) /\
  (forall c,
     close = repeat (Num c) (length close) ->
     (i < length close)%nat ->
     nth_error (App10.rsi_of window close) i = Some NaN).
Proof.
  split.
  - intros g l Hg Hl Hl0.
    assert (Hg0 : 0 <= g).
    { eapply rolling_mean_nonneg; [|exact Hg]. apply gain_nonneg. }
    split; [exact Hg0|].
    rewrite rsi_nth_error, Hg, Hl.
    destruct (fdiv_zero_denominator g l Hl0 Hg0) as [(Hz & ->)|(Hp & ->)].
    + split; [intros; lra | reflexivity].
    + split; [|intros; lra]. intros _. simpl. eexists. split; [reflexivity|lra].
  - intros c Hc Hi. rewrite rsi_nth_error.
    destruct (nth_error (App10.avg_gain window close) i) as [g|] eqn:Eg.
    2:{ apply nth_error_None in Eg. rewrite avg_gain_length in Eg. lia. }
    destruct (nth_error (App10.avg_loss window close) i) as [l|] eqn:El.
    2:{ apply nth_error_None in El. rewrite avg_loss_length in El. lia. }
    unfold App10.avg_gain in Eg. unfold App10.avg_loss in El.
    destruct (rolling_mean_entry _ _ _ _ Eg) as [->|(gq & ->)]; [reflexivity|].
    destruct (rolling_mean_entry _ _ _ _ El) as [->|(lq & ->)]; [reflexivity|].
    rewrite Hc in Eg, El.
    apply rolling_mean_zero in Eg; [|apply gain_constant].
    apply rolling_mean_zero in El; [|apply loss_constant].
    destruct (fdiv_zero_denominator gq lq El) as [(_ & ->)|(Hp & _)];
      [lra | reflexivity | lra].
Qed.

(** Fifty closes rising by 1 from 100, and fifty closes all at 100. *)
Definition rising_closes : Series :=
  map (fun k => Num (inject_Z (Z.of_nat (100 + k)))) (seq 0 50).
Definition flat_closes : Series := repeat (Num 100) 50.

Lemma rsi_zero_loss_rule_witness :
  (exists r, nth_error (App10.rsi_of 14 rising_closes) 14 = Some (Num r)
             /\ r == 100) /\
  nth_error (App10.rsi_of 14 flat_closes) 14 = Some NaN.
Proof.
  split.
  - destruct (rsi_zero_loss_rule 14 rising_closes 14) as [Hrule _].
    eapply Hrule.
    + vm_compute. reflexivity.
    + vm_compute. reflexivity.
    + reflexivity.
    + reflexivity.
  - destruct (rsi_zero_loss_rule 14 flat_closes 14) as [_ Hflat].
    apply (Hflat 100).
    + reflexivity.
    + vm_compute. lia.
Defined.

(** With a constant close the average loss over the window is 0 at index
    14, and the script's RSI there, as at every later index, is NaN. *)
Lemma rsi_flat_closes_undefined :
  length flat_closes = 50%nat /\
  (exists l, nth_error (App10.avg_loss 14 flat_closes) 14 = Some (Num l)
             /\ l == 0) /\
  nth_error (App10.RSI flat_closes) 14 = Some NaN /\
  skipn 14 (App10.RSI flat_closes) = repeat NaN 36.
Proof.
  split; [reflexivity|]. split.
  - eexists. split; [vm_compute; reflexivity | reflexivity].
  - split; vm_compute; reflexivity.
Qed.

(** ** Series that are too short *)

Lemma observations_length win : (length (observations win) <= length win)%nat.
Proof.
  induction win as [|[q|] win IH]; simpl; lia.
Qed.

Lemma all_nan_repeat (s : Series) n :
  length s = n ->
  (forall i, (i < n)%nat -> nth_error s i = Some NaN) ->
  s = repeat NaN n.
Proof.
  revert n; induction s as [|v s IH]; intros n Hlen H; simpl in Hlen; subst n.
  - reflexivity.
  - simpl. f_equal.
    + specialize (H 0%nat). simpl in H. assert (Some v = Some NaN) by (apply H; lia).
      congruence.
    + apply IH; auto. intros i Hi. apply (H (S i)). lia.
Qed.

(** A window that still contains the leading NaN of the series has fewer
    than [w] observations. *)
Lemma rolling_mean_short w t i :
  (i < length (NaN :: t))%nat -> (length (NaN :: t) <= w)%nat ->
  nth_error (rolling_mean w (NaN :: t)) i = Some NaN.
Proof.
  intros Hi Hw. unfold rolling_mean. rewrite rolling_nth_error by exact Hi.
  f_equal. unfold calc_mean, window_at.
  replace (i + 1 - w)%nat with 0%nat by lia.
  replace (i + 1)%nat with (S i) by lia.
  cbn [map prep firstn skipn observations].
  pose proof (observations_length (firstn i (map prep t))) as Ho.
  pose proof (firstn_le_length i (map prep t)) as Hf.
  destruct (Nat.leb_spec w (length (observations (firstn i (map prep t)))));
    [|reflexivity].
  simpl in Hi, Hw. lia.
Qed.

Lemma diff_head c rest : exists t, diff (c :: rest) = NaN :: t.
Proof.
  unfold diff, shift, s_sub. cbn [length repeat app firstn zip_with].
  eexists. f_equal. destruct c; reflexivity.
Qed.

Lemma rsi_short window close :
  (length close <= window)%nat ->
  App10.rsi_of window close = repeat NaN (length close).
Proof.
  intros Hw. apply all_nan_repeat.
  - unfold App10.rsi_of, s_div.
    rewrite length_map, zip_with_length, avg_gain_length, avg_loss_length. lia.
  - intros i Hi. rewrite rsi_nth_error.
    destruct close as [|c rest]; [simpl in Hi; lia|].
    destruct (diff_head c rest) as (t & Ht).
    assert (Hlen : length (diff (c :: rest)) = length (c :: rest)).
    { unfold diff, s_sub. rewrite zip_with_length, shift_length. lia. }
    unfold App10.avg_gain, App10.avg_loss, clip_lower, clip_upper, s_neg.
    rewrite Ht in *. cbn [map fltb fgtb fneg].
    rewrite !rolling_mean_short; try reflexivity;
      cbn [length] in *; rewrite ?length_map; lia.
Qed.

(** C2, as the code has it: too short a Series raises nothing.  With
    fewer than 2 bars the Fibonacci operation returns an empty mapping
    and the ADX operation returns three all-undefined series as long as
    the input; the RSI of at most [window] bars is an all-undefined
    series as long as the input. *)
Theorem short_series_results (df : DataFrame) (period lookback window : nat) :
  ((length df < 2)%nat ->
     fibonacci_levels df lookback = Returned [] /\
     add_adx df period =
       Returned (repeat NaN (length df), repeat NaN (length df),
                 repeat NaN (length df))) /\
  ((length df <= window)%nat ->
     App10.rsi_of window (col Close df) = repeat NaN (length df)).
Proof.
  split.
  - intros Hlen. split.
    + unfold fibonacci_levels.
      destruct (Nat.ltb_spec (length df) 2); [reflexivity|lia].
    + unfold add_adx, col, mk_series. rewrite length_map.
      destruct (Nat.ltb_spec (length df) 2) as [_|Hge]; [|lia].
      rewrite repeat_length, Nat.eqb_refl. reflexivity.
  - intros Hw. pose proof (rsi_short window (col Close df)) as H.
    unfold col in *. rewrite length_map in H. now apply H.
Qed.

(** One bar; five bars. *)
Definition one_bar : DataFrame :=
  [ mk_bar (Num 100) (Num 101) (Num 99) (Num 100) (Num 1000) ].
Definition five_bars : DataFrame :=
  [ mk_bar (Num 100) (Num 101) (Num 99) (Num 100) (Num 1000);
    mk_bar (Num 100) (Num 103) (Num 100) (Num 102) (Num 1200);
    mk_bar (Num 102) (Num 102) (Num 98) (Num 99) (Num 900);
    mk_bar (Num 99) (Num 104) (Num 99) (Num 103) (Num 1500);
    mk_bar (Num 103) (Num 105) (Num 101) (Num 104) (Num 1100) ].

Lemma short_series_results_witness :
  (fibonacci_levels one_bar 50 = Returned [] /\
   add_adx one_bar 14 = Returned ([NaN], [NaN], [NaN])) /\
  App10.rsi_of 14 (col Close five_bars) = repeat NaN 5.
Proof.
  split.
  - apply (short_series_results one_bar 14 50 14). simpl; lia.
  - apply (short_series_results five_bars 14 50 14). simpl; lia.
Defined.

(** On one bar the ADX operation returns a result, and so does the
    Fibonacci operation; on five bars the RSI of window 14 is a series of
    five values.  No InsufficientData error is raised. *)
Lemma short_series_no_error :
  (length one_bar < 2)%nat /\
  add_adx one_bar 14 = Returned ([NaN], [NaN], [NaN]) /\
  add_adx one_bar 14 <> Raised "InsufficientData" /\
  fibonacci_levels one_bar 50 = Returned [] /\
  fibonacci_levels one_bar 50 <> Raised "InsufficientData" /\
  (length five_bars < 14)%nat /\
  App10.RSI (col Close five_bars) = [NaN; NaN; NaN; NaN; NaN].
Proof.
  split; [simpl; lia|].
  split; [reflexivity|]. split; [discriminate|].
  split; [reflexivity|]. split; [discriminate|].
  split; [simpl; lia|]. reflexivity.
Qed.

(** ** Warm-up of the rolling windows *)

Lemma observations_lt win :
  In None win -> (length (observations win) < length win)%nat.
Proof.
  induction win as [|[q|] win IH]; simpl; intros H.
  - contradiction.
  - destruct H as [H|H]; [discriminate|]. apply IH in H. lia.
  - pose proof (observations_length win). lia.
Qed.

Lemma window_at_length {A : Type} w (xs : list A) i :
  (i < length xs)%nat ->
  length (window_at w xs i) = (i + 1 - (i + 1 - w))%nat.
Proof.
  intros Hi. unfold window_at.
  rewrite length_skipn, firstn_length_le by lia. reflexivity.
Qed.

Lemma window_at_nth_error {A : Type} w (xs : list A) i j :
  (i + 1 - w <= j)%nat -> (j <= i)%nat ->
  nth_error (window_at w xs i) (j - (i + 1 - w)) = nth_error xs j.
Proof.
  intros Hlo Hhi. unfold window_at.
  rewrite nth_error_skipn.
  replace (i + 1 - w + (j - (i + 1 - w)))%nat with j by lia.
  rewrite nth_error_firstn.
  destruct (Nat.ltb_spec j (i + 1)); [reflexivity|lia].
Qed.

(** A window that is incomplete, or that holds a value that is not a
    finite number, has fewer than [w] observations. *)
Lemma window_short w (a : Series) i :
  (i < length a)%nat ->
  ((i + 1 < w)%nat \/
   exists j v, (i + 1 - w <= j)%nat /\ (j <= i)%nat /\
               nth_error a j = Some v /\ prep v = None) ->
  (length (observations (window_at w (map prep a) i)) < w)%nat.
Proof.
  intros Hi H.
  assert (Hlen : length (window_at w (map prep a) i) = (i + 1 - (i + 1 - w))%nat).
  { apply window_at_length. now rewrite length_map. }
  destruct H as [H|(j & v & Hlo & Hhi & Hj & Hv)].
  - pose proof (observations_length (window_at w (map prep a) i)). lia.
  - assert (Hin : In None (window_at w (map prep a) i)).
    { apply (nth_error_In _ (j - (i + 1 - w))).
      rewrite window_at_nth_error by assumption.
      rewrite map_nth_error', Hj. simpl. now rewrite Hv. }
    apply observations_lt in Hin. lia.
Qed.

Lemma calc_sum_short w obs :
  (1 <= w)%nat -> (length obs < w)%nat -> calc_sum w obs = NaN.
Proof.
  intros Hw H. unfold calc_sum.
  destruct (Nat.eqb_spec w 0); [lia|]. rewrite andb_false_r.
  destruct (Nat.leb_spec w (length obs)); [lia|reflexivity].
Qed.

Lemma calc_mean_short w obs : (length obs < w)%nat -> calc_mean w obs = NaN.
Proof.
  intros H. unfold calc_mean.
  destruct (Nat.leb_spec w (length obs)); [lia|reflexivity].
Qed.

Lemma calc_var_short ddof w obs : (length obs < w)%nat -> calc_var ddof w obs = NaN.
Proof.
  intros H. unfold calc_var.
  destruct (Nat.leb_spec w (length obs)); [lia|reflexivity].
Qed.

Lemma rolling_short agg w a i :
  (forall obs, (length obs < w)%nat -> agg w obs = NaN) ->
  (i < length a)%nat ->
  ((i + 1 < w)%nat \/
   exists j v, (i + 1 - w <= j)%nat /\ (j <= i)%nat /\
               nth_error a j = Some v /\ prep v = None) ->
  nth_error (rolling agg w a) i = Some NaN.
Proof.
  intros Hagg Hi H. rewrite rolling_nth_error by exact Hi.
  f_equal. apply Hagg. now apply window_short.
Qed.

Lemma shift_nth_error_front k a i :
  (i < k)%nat -> (i < length a)%nat -> nth_error (shift k a) i = Some NaN.
Proof.
  intros Hk Hi. unfold shift.
  rewrite nth_error_firstn.
  destruct (Nat.ltb_spec i (length a)); [|lia].
  rewrite nth_error_app1 by (rewrite repeat_length; lia).
  now apply repeat_nth_error.
Qed.

(** ** The stages of the ADX computation (tradingbot.py)

    The intermediate arrays of [add_adx], named as in the source; each
    has one entry per pair of consecutive bars. *)

Definition adx_tr (df : DataFrame) : Series :=
  zip_with3 np_max3
    (s_sub (tl (col High df)) (tl (col Low df)))
    (s_abs (s_sub (tl (col High df)) (removelast (col Close df))))
    (s_abs (s_sub (tl (col Low df)) (removelast (col Close df)))).

Definition adx_up (df : DataFrame) : Series :=
  s_sub (tl (col High df)) (removelast (col High df)).
Definition adx_down (df : DataFrame) : Series :=
  s_sub (removelast (col Low df)) (tl (col Low df)).
Definition adx_plus_dm (df : DataFrame) : Series :=
  zip_with dm_where (adx_up df) (adx_down df).
Definition adx_minus_dm (df : DataFrame) : Series :=
  zip_with dm_where (adx_down df) (adx_up df).

Definition adx_di (dm : Series) (df : DataFrame) (period : nat) : Series :=
  s_scale (Num 100)
    (s_div (rolling_sum period dm)
           (replace_zero_nan (rolling_sum period (adx_tr df)))).
Definition adx_plus_di (df : DataFrame) (period : nat) : Series :=
  adx_di (adx_plus_dm df) df period.
Definition adx_minus_di (df : DataFrame) (period : nat) : Series :=
  adx_di (adx_minus_dm df) df period.

Definition adx_dx (df : DataFrame) (period : nat) : Series :=
  s_div (s_scale (Num 100)
           (s_abs (s_sub (adx_plus_di df period) (adx_minus_di df period))))
        (replace_zero_nan (s_add (adx_plus_di df period) (adx_minus_di df period))).

Definition adx_raw (df : DataFrame) (period : nat) : Series :=
  rolling_mean period (adx_dx df period).

Lemma col_length f (df : DataFrame) : length (col f df) = length df.
Proof. apply length_map. Qed.

Lemma adx_tr_length df : length (adx_tr df) = (length df - 1)%nat.
Proof.
  unfold adx_tr, s_abs, s_sub.
  rewrite zip_with3_length, !length_map, !zip_with_length,
    !tl_length, !removelast_length, !col_length. lia.
Qed.

Lemma adx_up_length df : length (adx_up df) = (length df - 1)%nat.
Proof.
  unfold adx_up, s_sub.
  rewrite zip_with_length, tl_length, removelast_length, !col_length. lia.
Qed.

Lemma adx_down_length df : length (adx_down df) = (length df - 1)%nat.
Proof.
  unfold adx_down, s_sub.
  rewrite zip_with_length, tl_length, removelast_length, !col_length. lia.
Qed.

Lemma adx_plus_dm_length df : length (adx_plus_dm df) = (length df - 1)%nat.
Proof.
  unfold adx_plus_dm. rewrite zip_with_length, adx_up_length, adx_down_length. lia.
Qed.

Lemma adx_minus_dm_length df : length (adx_minus_dm df) = (length df - 1)%nat.
Proof.
  unfold adx_minus_dm. rewrite zip_with_length, adx_up_length, adx_down_length. lia.
Qed.

Lemma adx_di_length dm df period :
  length dm = (length df - 1)%nat ->
  length (adx_di dm df period) = (length df - 1)%nat.
Proof.
  intros H. unfold adx_di, s_scale, s_div, replace_zero_nan, rolling_sum.
  rewrite length_map, zip_with_length, length_map, !rolling_length,
    adx_tr_length. lia.
Qed.

Lemma adx_plus_di_length df period :
  length (adx_plus_di df period) = (length df - 1)%nat.
Proof. apply adx_di_length, adx_plus_dm_length. Qed.

Lemma adx_minus_di_length df period :
  length (adx_minus_di df period) = (length df - 1)%nat.
Proof. apply adx_di_length, adx_minus_dm_length. Qed.

Lemma adx_dx_length df period : length (adx_dx df period) = (length df - 1)%nat.
Proof.
  unfold adx_dx, s_div, s_scale, s_abs, s_sub, s_add, replace_zero_nan.
  rewrite zip_with_length, !length_map, !zip_with_length,
    adx_plus_di_length, adx_minus_di_length. lia.
Qed.

Lemma adx_raw_length df period : length (adx_raw df period) = (length df - 1)%nat.
Proof.
  unfold adx_raw, rolling_mean. now rewrite rolling_length, adx_dx_length.
Qed.

(** With two bars or more the three results are the raw arrays behind
    one leading NaN. *)
Lemma add_adx_long df period :
  (2 <= length df)%nat ->
  add_adx df period =
  Returned (NaN :: adx_plus_di df period,
            NaN :: adx_minus_di df period,
            NaN :: adx_raw df period).
Proof.
  intros Hn. unfold add_adx. rewrite col_length.
  destruct (Nat.ltb_spec (length df) 2) as [Hlt|_]; [lia|].
  change (length (rolling_mean period _)) with (length (adx_raw df period)).
  rewrite adx_raw_length.
  replace (length df - (length df - 1))%nat with 1%nat by lia.
  change
    ((plus_di_full <- mk_series (repeat NaN 1 ++ adx_plus_di df period) (length df) ;;
      minus_di_full <- mk_series (repeat NaN 1 ++ adx_minus_di df period) (length df) ;;
      adx_full <- mk_series (repeat NaN 1 ++ adx_raw df period) (length df) ;;
      Returned (plus_di_full, minus_di_full, adx_full)) =
     Returned (NaN :: adx_plus_di df period, NaN :: adx_minus_di df period,
               NaN :: adx_raw df period)).
  unfold mk_series. cbn [repeat app length].
  rewrite adx_plus_di_length, adx_minus_di_length, adx_raw_length.
  replace (S (length df - 1)) with (length df) by lia.
  rewrite Nat.eqb_refl. reflexivity.
Qed.

(** ** Alignment of the indicator series with the input *)

(** The first [k] positions of [s] hold NaN. *)
Definition nan_before (k : nat) (s : Series) : Prop :=
  forall i, (i < k)%nat -> (i < length s)%nat -> nth_error s i = Some NaN.

Lemma nth_error_defined {A : Type} (xs : list A) i :
  (i < length xs)%nat -> exists x, nth_error xs i = Some x.
Proof.
  intros H. destruct (nth_error xs i) eqn:E; eauto.
  apply nth_error_None in E. lia.
Qed.

Lemma add_bollinger_aligned {S : SqrtModel} df period k :
  exists upper mid lower,
    add_bollinger df period k = Returned (upper, mid, lower) /\
    length upper = length df /\ length mid = length df /\
    length lower = length df /\
    nan_before (period - 1) upper /\ nan_before (period - 1) mid /\
    nan_before (period - 1) lower.
Proof.
  unfold add_bollinger. do 3 eexists. split; [reflexivity|].
  assert (Lm : length (rolling_mean period (col Close df)) = length df).
  { unfold rolling_mean. now rewrite rolling_length, col_length. }
  assert (Ls : length (rolling_std 1 period (col Close df)) = length df).
  { now rewrite rolling_std_length, col_length. }
  assert (Hm : nan_before (period - 1) (rolling_mean period (col Close df))).
  { intros i Hi Hlen. unfold rolling_mean in *. rewrite rolling_length in Hlen.
    apply rolling_short; auto using calc_mean_short. left; lia. }
  unfold s_add, s_sub.
  repeat split.
  - rewrite zip_with_length, length_map. lia.
  - exact Lm.
  - rewrite zip_with_length, length_map. lia.
  - intros i Hi Hlen. rewrite zip_with_length, length_map in Hlen.
    rewrite zip_with_nth_error, map_nth_error', Hm by lia.
    destruct (nth_error_defined (rolling_std 1 period (col Close df)) i) as (x & ->);
      [lia|reflexivity].
  - exact Hm.
  - intros i Hi Hlen. rewrite zip_with_length, length_map in Hlen.
    rewrite zip_with_nth_error, map_nth_error', Hm by lia.
    destruct (nth_error_defined (rolling_std 1 period (col Close df)) i) as (x & ->);
      [lia|reflexivity].
Qed.

Lemma add_macd_aligned df fast slow signal :
  (1 <= fast)%nat -> (1 <= slow)%nat -> (1 <= signal)%nat ->
  exists macd macd_signal macd_hist,
    add_macd df fast slow signal = Returned (macd, macd_signal, macd_hist) /\
    length macd = length df /\ length macd_signal = length df /\
    length macd_hist = length df.
Proof.
  intros Hf Hs Hg. unfold add_macd.
  destruct (ewm_mean_returns false fast (col Close df) Hf) as (ef & -> & Lf).
  destruct (ewm_mean_returns false slow (col Close df) Hs) as (es & -> & Ls).
  cbn [bind].
  destruct (ewm_mean_returns false signal (s_sub ef es) Hg) as (sg & -> & Lg).
  cbn [bind]. do 3 eexists. split; [reflexivity|].
  rewrite col_length in Lf, Ls.
  assert (Lm : length (s_sub ef es) = length df).
  { unfold s_sub. rewrite zip_with_length. lia. }
  repeat split; try lia.
  unfold s_sub at 1. rewrite zip_with_length. lia.
Qed.

Lemma add_dpo_aligned df period :
  exists dpo,
    add_dpo df period = Returned dpo /\
    length dpo = length df /\
    nan_before (Nat.max (dpo_shift period) (period - 1)) dpo.
Proof.
  unfold add_dpo. eexists. split; [reflexivity|].
  assert (Lm : length (rolling_mean period (col Close df)) = length df).
  { unfold rolling_mean. now rewrite rolling_length, col_length. }
  assert (Lsh : length (shift (dpo_shift period) (col Close df)) = length df).
  { now rewrite shift_length, col_length. }
  unfold s_sub. split.
  - rewrite zip_with_length. lia.
  - intros i Hi Hlen. rewrite zip_with_length in Hlen.
    rewrite zip_with_nth_error.
    destruct (nth_error_defined (shift (dpo_shift period) (col Close df)) i)
      as (x & Hx); [lia|].
    destruct (nth_error_defined (rolling_mean period (col Close df)) i)
      as (y & Hy); [lia|].
    rewrite Hx, Hy. f_equal.
    destruct (Nat.lt_ge_cases i (dpo_shift period)) as [Hsh|Hsh].
    + rewrite shift_nth_error_front in Hx by (rewrite ?col_length; lia).
      injection Hx as <-. reflexivity.
    + assert (Hy' : nth_error (rolling_mean period (col Close df)) i = Some NaN).
      { unfold rolling_mean in *. rewrite rolling_length in Lm.
        apply rolling_short; auto using calc_mean_short; [lia|left; lia]. }
      rewrite Hy' in Hy. injection Hy as <-. destruct x; reflexivity.
Qed.

Lemma add_cvo_aligned df short long :
  (1 <= short)%nat -> (1 <= long)%nat ->
  exists cvo vol_short vol_long,
    add_cvo df short long = Returned (cvo, vol_short, vol_long) /\
    length cvo = length df /\ length vol_short = length df /\
    length vol_long = length df.
Proof.
  intros Hs Hl. unfold add_cvo.
  destruct (ewm_mean_returns false short (col Volume df) Hs) as (vs & -> & Ls).
  destruct (ewm_mean_returns false long (col Volume df) Hl) as (vl & -> & Ll).
  cbn [bind]. do 3 eexists. split; [reflexivity|].
  rewrite col_length in *.
  unfold s_div, s_scale, s_sub, replace_zero_nan.
  rewrite zip_with_length, !length_map, zip_with_length. repeat split; lia.
Qed.

Lemma adx_di_warmup dm df period j :
  length dm = (length df - 1)%nat ->
  (j + 1 < period)%nat -> (j < length df - 1)%nat ->
  nth_error (adx_di dm df period) j = Some NaN.
Proof.
  intros Hdm Hj Hn. unfold adx_di, s_scale, s_div, replace_zero_nan, rolling_sum.
  rewrite map_nth_error', zip_with_nth_error, map_nth_error'.
  assert (Hsum : nth_error (rolling calc_sum period dm) j = Some NaN).
  { apply rolling_short.
    - intros obs Hobs. apply calc_sum_short; lia.
    - lia.
    - left; lia. }
  rewrite Hsum.
  destruct (nth_error_defined (rolling calc_sum period (adx_tr df)) j) as (x & ->).
  - rewrite rolling_length, adx_tr_length. lia.
  - reflexivity.
Qed.

Lemma adx_dx_warmup df period j :
  (j + 1 < period)%nat -> (j < length df - 1)%nat ->
  nth_error (adx_dx df period) j = Some NaN.
Proof.
  intros Hj Hn.
  unfold adx_dx, s_div, s_scale, s_abs, s_sub, s_add, replace_zero_nan.
  rewrite zip_with_nth_error, !map_nth_error', !zip_with_nth_error.
  unfold adx_plus_di, adx_minus_di.
  rewrite !adx_di_warmup
    by (auto using adx_plus_dm_length, adx_minus_dm_length).
  reflexivity.
Qed.

Lemma adx_raw_warmup df period j :
  (j + 2 < 2 * period)%nat -> (j < length df - 1)%nat ->
  nth_error (adx_raw df period) j = Some NaN.
Proof.
  intros Hj Hn. unfold adx_raw, rolling_mean.
  apply rolling_short; auto using calc_mean_short.
  - rewrite adx_dx_length. lia.
  - destruct (Nat.lt_ge_cases (j + 1) period) as [Hs|Hs]; [left; lia|].
    right. exists (j + 1 - period)%nat, NaN.
    repeat split; try lia.
    apply adx_dx_warmup; lia.
Qed.

Lemma add_adx_aligned df period :
  exists plus_di minus_di adx,
    add_adx df period = Returned (plus_di, minus_di, adx) /\
    length plus_di = length df /\ length minus_di = length df /\
    length adx = length df /\
    nan_before (Nat.max 1 period) plus_di /\
    nan_before (Nat.max 1 period) minus_di /\
    nan_before (Nat.max 1 (2 * period - 1)) adx.
Proof.
  destruct (Nat.lt_ge_cases (length df) 2) as [Hshort|Hlong].
  - exists (repeat NaN (length df)), (repeat NaN (length df)),
      (repeat NaN (length df)).
    split.
    { unfold add_adx, mk_series. rewrite col_length.
      destruct (Nat.ltb_spec (length df) 2); [|lia].
      rewrite repeat_length, Nat.eqb_refl. reflexivity. }
    rewrite !repeat_length.
    repeat split; intros i _ Hi; rewrite repeat_length in Hi;
      now apply repeat_nth_error.
  - do 3 eexists. split; [now apply add_adx_long|].
    cbn [length].
    rewrite adx_plus_di_length, adx_minus_di_length, adx_raw_length.
    repeat split; try lia.
    + intros [|j] Hi Hlen; [reflexivity|]. cbn [length nth_error] in *.
      rewrite adx_plus_di_length in Hlen.
      apply adx_di_warmup; auto using adx_plus_dm_length; lia.
    + intros [|j] Hi Hlen; [reflexivity|]. cbn [length nth_error] in *.
      rewrite adx_minus_di_length in Hlen.
      apply adx_di_warmup; auto using adx_minus_dm_length; lia.
    + intros [|j] Hi Hlen; [reflexivity|]. cbn [length nth_error] in *.
      rewrite adx_raw_length in Hlen.
      apply adx_raw_warmup; lia.
Qed.

(** C1: every series returned by the Bollinger, MACD, DPO, CVO and
    ADX/DMI operations is as long as the input, position by position;
    the warm-up positions hold NaN at the front and nothing is dropped or
    shifted.  ADX, +DI and -DI, whose differences start at bar 1, carry a
    leading NaN so that their length is that of the input. *)
Theorem indicator_series_aligned {S : SqrtModel} (df : DataFrame)
  (bb_period : nat) (bb_std : Q)
  (macd_fast macd_slow macd_signal dpo_period cvo_short cvo_long adx_period : nat) :
  (1 <= macd_fast)%nat -> (1 <= macd_slow)%nat -> (1 <= macd_signal)%nat ->
  (1 <= cvo_short)%nat -> (1 <= cvo_long)%nat ->
  (exists upper mid lower,
     add_bollinger df bb_period bb_std = Returned (upper, mid, lower) /\
     length upper = length df /\ length mid = length df /\
     length lower = length df /\
     nan_before (bb_period - 1) upper /\ nan_before (bb_period - 1) mid /\
     nan_before (bb_period - 1) lower) /\
  (exists macd macd_signal' macd_hist,
     add_macd df macd_fast macd_slow macd_signal =
       Returned (macd, macd_signal', macd_hist) /\
     length macd = length df /\ length macd_signal' = length df /\
     length macd_hist = length df) /\
  (exists dpo,
     add_dpo df dpo_period = Returned dpo /\
     length dpo = length df /\
     nan_before (Nat.max (dpo_shift dpo_period) (dpo_period - 1)) dpo) /\
  (exists cvo vol_short vol_long,
     add_cvo df cvo_short cvo_long = Returned (cvo, vol_short, vol_long) /\
     length cvo = length df /\ length vol_short = length df /\
     length vol_long = length df) /\
  (exists plus_di minus_di adx,
     add_adx df adx_period = Returned (plus_di, minus_di, adx) /\
     length plus_di = length df /\ length minus_di = length df /\
     length adx = length df /\
     nan_before (Nat.max 1 adx_period) plus_di /\
     nan_before (Nat.max 1 adx_period) minus_di /\
     nan_before (Nat.max 1 (2 * adx_period - 1)) adx).
Proof.
  intros Hf Hs Hg Hcs Hcl.
  split; [apply add_bollinger_aligned|].
  split; [now apply add_macd_aligned|].
  split; [apply add_dpo_aligned|].
  split; [now apply add_cvo_aligned|].
  apply add_adx_aligned.
Qed.

Lemma indicator_series_aligned_witness :
  (exists upper mid lower,
     @add_bollinger dyadic_sqrt five_bars 3 2 = Returned (upper, mid, lower) /\
     length upper = length five_bars /\ length mid = length five_bars /\
     length lower = length five_bars /\
     nan_before (3 - 1) upper /\ nan_before (3 - 1) mid /\
     nan_before (3 - 1) lower) /\
  (exists macd macd_signal' macd_hist,
     add_macd five_bars 2 3 2 = Returned (macd, macd_signal', macd_hist) /\
     length macd = length five_bars /\ length macd_signal' = length five_bars /\
     length macd_hist = length five_bars) /\
  (exists dpo,
     add_dpo five_bars 2 = Returned dpo /\
     length dpo = length five_bars /\
     nan_before (Nat.max (dpo_shift 2) (2 - 1)) dpo) /\
  (exists cvo vol_short vol_long,
     add_cvo five_bars 2 3 = Returned (cvo, vol_short, vol_long) /\
     length cvo = length five_bars /\ length vol_short = length five_bars /\
     length vol_long = length five_bars) /\
  (exists plus_di minus_di adx,
     add_adx five_bars 2 = Returned (plus_di, minus_di, adx) /\
     length plus_di = length five_bars /\ length minus_di = length five_bars /\
     length adx = length five_bars /\
     nan_before (Nat.max 1 2) plus_di /\
     nan_before (Nat.max 1 2) minus_di /\
     nan_before (Nat.max 1 (2 * 2 - 1)) adx).
Proof.
  apply (@indicator_series_aligned dyadic_sqrt five_bars 3 2 2 3 2 2 2 3 2); lia.
Defined.

(** On five bars with an ADX period of 2: a leading NaN for the bar that
    has no predecessor, one more warm-up NaN for the directional
    indicators and two more for the ADX, then values. *)
Example add_adx_five_bars :
  exists plus_di minus_di adx,
    add_adx five_bars 2 = Returned (plus_di, minus_di, adx) /\
    map is_nan plus_di = [true; true; false; false; false] /\
    map is_nan minus_di = [true; true; false; false; false] /\
    map is_nan adx = [true; true; true; false; false].
Proof.
  do 3 eexists. split; [vm_compute; reflexivity|].
  repeat split; reflexivity.
Qed.

(** ** ADX, +DI and -DI lie in [0, 100] *)

(** A bar with finite high, low and close, the close between the low and
    the high. *)
Definition ohlc_ok (b : Bar) : Prop :=
  exists h l c,
    High b = Num h /\ Low b = Num l /\ Close b = Num c /\ l <= c /\ c <= h.





Lemma col_nth_error f (df : DataFrame) j :
  nth_error (col f df) j = option_map f (nth_error df j).
Proof. apply map_nth_error'. Qed.


Lemma forall2_intro {A B : Type} (P : A -> B -> Prop) (a : list A) (b : list B) :
  length a = length b ->
  (forall j x y, nth_error a j = Some x -> nth_error b j = Some y -> P x y) ->
  Forall2 P a b.
Proof.
  revert b; induction a as [|x a IH]; intros [|y b] Hlen H; simpl in Hlen;
    try discriminate; constructor.
  - apply (H 0%nat); reflexivity.
  - apply IH; [lia|]. intros j x' y' Hx Hy. apply (H (S j)); assumption.
Qed.
















Lemma five_bars_ok : Forall ohlc_ok five_bars.
Proof.
  unfold five_bars.
  repeat (constructor;
          [do 3 eexists; cbn [High Low Close];
           repeat (split; [reflexivity|]); split; unfold Qle; simpl; lia|]).
  constructor.
Defined.






(** ** Exponential moving averages *)

(** The smoothing constant 2 / (span + 1). *)
Definition ema_alpha (span : nat) : Q := 2 / (Qnat span + 1).

Lemma Qnat_ge_1 n : (1 <= n)%nat -> 1 <= Qnat n.
Proof.
  intros H. unfold Qnat. rewrite <- (Zle_Qle 1). lia.
Qed.

Lemma alpha_of_span_eq span :
  (1 <= span)%nat -> alpha_of_span span == ema_alpha span.
Proof.
  intros H. apply Qnat_ge_1 in H. unfold alpha_of_span, ema_alpha.
  field. lra.
Qed.

Lemma ema_alpha_bounds span :
  (1 <= span)%nat -> 0 < ema_alpha span /\ ema_alpha span <= 1.
Proof.
  intros H. apply Qnat_ge_1 in H. unfold ema_alpha. split.
  - apply Qlt_shift_div_l; lra.
  - apply Qle_shift_div_r; lra.
Qed.

(** One step of the loop on a finite mean and a finite value. *)
Lemma ewm_step_num (adjust : bool) (alpha w ow : Q) (n : nat) (x : Q) :
  ~ ow * (1 - alpha) + (if adjust then 1 else alpha) == 0 ->
  exists w',
    ewm_step adjust alpha (mk_ewm (Num w) ow n) (Num x) =
      mk_ewm (Num w') (if adjust then ow * (1 - alpha) + 1 else 1) (S n) /\
    w' == (ow * (1 - alpha) * w + (if adjust then 1 else alpha) * x)
          / (ow * (1 - alpha) + (if adjust then 1 else alpha)).
Proof.
  intros Hden. unfold ewm_step.
  cbn [weighted old_wt nobs is_nan negb feqb].
  destruct (Qeq_bool w x) eqn:E; cbn [negb].
  - exists w. split; [destruct adjust; reflexivity|].
    apply Qeq_bool_iff in E. rewrite <- E. field. exact Hden.
  - cbn [fmul fadd fdiv].
    destruct (Qeq_bool (ow * (1 - alpha) + (if adjust then 1 else alpha)) 0) eqn:D.
    { apply Qeq_bool_iff in D. contradiction. }
    exists ((ow * (1 - alpha) * w + (if adjust then 1 else alpha) * x)
            / (ow * (1 - alpha) + (if adjust then 1 else alpha))).
    split; [destruct adjust; reflexivity|reflexivity].
Qed.

(** [ys] follows the recurrence y = alpha * x + (1 - alpha) * previous,
    starting from [prev]. *)
Fixpoint ema_chain (alpha prev : Q) (xs ys : list Q) : Prop :=
  match xs, ys with
  | [], [] => True
  | x :: xs', y :: ys' =>
      y == alpha * x + (1 - alpha) * prev /\ ema_chain alpha y xs' ys'
  | _, _ => False
  end.

Lemma ema_chain_length alpha prev xs ys :
  ema_chain alpha prev xs ys -> length ys = length xs.
Proof.
  revert prev ys; induction xs as [|x xs IH]; intros prev [|y ys] H;
    simpl in *; try contradiction; auto.
  destruct H as (_ & H). f_equal. eapply IH; eauto.
Qed.

Lemma ema_chain_nth alpha prev xs ys i y0 y1 x1 :
  ema_chain alpha prev xs ys ->
  nth_error (prev :: ys) i = Some y0 ->
  nth_error ys i = Some y1 ->
  nth_error xs i = Some x1 ->
  y1 == alpha * x1 + (1 - alpha) * y0.
Proof.
  revert prev xs ys; induction i as [|i IH]; intros prev [|x xs] [|y ys] H H0 H1 Hx;
    simpl in *; try discriminate; try contradiction.
  - destruct H as (H & _). injection H0 as <-. injection H1 as <-.
    injection Hx as <-. exact H.
  - destruct H as (_ & H). eapply IH; eauto.
Qed.

Lemma ewm_loop_recursive alpha xs : forall w n,
  exists ys,
    ewm_loop false alpha (mk_ewm (Num w) 1 (S n)) (map Num xs) = map Num ys /\
    ema_chain alpha w xs ys.
Proof.
  induction xs as [|x xs IH]; intros w n.
  - exists []. simpl. auto.
  - cbn [map ewm_loop].
    destruct (ewm_step_num false alpha w 1 (S n) x) as (w' & -> & Hw').
    { intros H. lra. }
    destruct (IH w' (S n)) as (ys & -> & Hch).
    exists (w' :: ys). split; [reflexivity|].
    cbn [ema_chain]. split; [|exact Hch].
    rewrite Hw'. field. lra.
Qed.

(** The weighted sum x0 + beta * (x1 + beta * (x2 + ...)) of a list, that
    is, the sum of beta^j * x_j. *)
Fixpoint wsum (beta : Q) (l : list Q) : Q :=
  match l with
  | [] => 0
  | x :: r => x + beta * wsum beta r
  end.

Fixpoint qpow (q : Q) (n : nat) : Q :=
  match n with
  | O => 1
  | S n' => q * qpow q n'
  end.

Lemma Qsum_scale {A : Type} (c : Q) (f : A -> Q) (l : list A) :
  Qsum (map (fun a => c * f a) l) == c * Qsum (map f l).
Proof.
  induction l as [|a l IH].
  - change (0 == c * 0). ring.
  - change (c * f a + Qsum (map (fun a => c * f a) l)
            == c * (f a + Qsum (map f l))).
    rewrite IH. ring.
Qed.

Lemma Qsum_map_ext {A : Type} (f g : A -> Q) (l : list A) :
  (forall a, f a == g a) -> Qsum (map f l) == Qsum (map g l).
Proof.
  intros H. induction l as [|a l IH].
  - reflexivity.
  - change (f a + Qsum (map f l) == g a + Qsum (map g l)).
    rewrite IH, (H a). reflexivity.
Qed.

Lemma wsum_explicit beta l :
  wsum beta l ==
  Qsum (map (fun j => qpow beta j * nth j l 0) (seq 0 (length l))).
Proof.
  induction l as [|x r IH].
  - reflexivity.
  - cbn [wsum length seq map]. rewrite <- seq_shift, map_map.
    change (x + beta * wsum beta r ==
            qpow beta 0 * x +
            Qsum (map (fun j => qpow beta (S j) * nth j r 0) (seq 0 (length r)))).
    rewrite IH, <- (Qsum_scale beta).
    rewrite (Qsum_map_ext
               (fun j => qpow beta (S j) * nth j r 0)
               (fun j => beta * (qpow beta j * nth j r 0))).
    + cbn [qpow]. ring.
    + intros j. cbn [qpow]. ring.
Qed.

Lemma wsum_proper b b' l : b == b' -> wsum b l == wsum b' l.
Proof.
  intros H. induction l as [|x r IH]; cbn [wsum].
  - reflexivity.
  - rewrite IH, H. reflexivity.
Qed.

Lemma wsum_ones_pos beta n : 0 <= beta -> 0 < wsum beta (repeat 1 (S n)).
Proof.
  intros Hb. induction n as [|n IH].
  - cbn [repeat wsum]. lra.
  - change (0 < 1 + beta * wsum beta (repeat 1 (S n))).
    assert (0 <= beta * wsum beta (repeat 1 (S n))).
    { apply Qmult_le_0_compat; lra. }
    lra.
Qed.

(** The adjusted loop: after the values of [p] the running mean is the
    weighted sum of the values seen, newest first, over the weighted sum
    of as many ones. *)
Lemma ewm_loop_adjusted alpha rest :
  0 <= 1 - alpha ->
  forall p w ow n,
    (0 < length p)%nat ->
    ow == wsum (1 - alpha) (repeat 1 (length p)) ->
    w == wsum (1 - alpha) (rev p) / wsum (1 - alpha) (repeat 1 (length p)) ->
    exists ys,
      ewm_loop true alpha (mk_ewm (Num w) ow (S n)) (map Num rest) = map Num ys /\
      length ys = length rest /\
      forall k y, nth_error ys k = Some y ->
        y == wsum (1 - alpha) (rev (p ++ firstn (S k) rest))
             / wsum (1 - alpha) (repeat 1 (length p + S k)).
Proof.
  intros Hb. induction rest as [|x rest IH]; intros p w ow n Hp How Hw.
  - exists []. repeat split; auto. intros [|k] y H; discriminate.
  - assert (HD : 0 < wsum (1 - alpha) (repeat 1 (length p))).
    { destruct (length p) as [|m] eqn:E; [lia|]. now apply wsum_ones_pos. }
    assert (HbD : 0 <= (1 - alpha) * wsum (1 - alpha) (repeat 1 (length p))).
    { apply Qmult_le_0_compat; lra. }
    cbn [map ewm_loop].
    destruct (ewm_step_num true alpha w ow (S n) x) as (w' & -> & Hw').
    { rewrite How. lra. }
    assert (Hnew : w' == wsum (1 - alpha) (rev (p ++ [x]))
                         / wsum (1 - alpha) (repeat 1 (length (p ++ [x])))).
    { rewrite rev_unit, length_app, Nat.add_1_r.
      cbn [repeat wsum].
      rewrite Hw', Hw, How. field. split; lra. }
    destruct (IH (p ++ [x]) w' (ow * (1 - alpha) + 1) (S n))
      as (ys & Hloop & Hlen & Hys).
    { rewrite length_app. simpl. lia. }
    { rewrite length_app, Nat.add_1_r. cbn [repeat wsum]. rewrite How. ring. }
    { exact Hnew. }
    rewrite Hloop.
    exists (w' :: ys). split; [reflexivity|]. split; [simpl; lia|].
    intros [|k] y Hy.
    + injection Hy as <-. cbn [firstn].
      replace (length p + 1)%nat with (length (p ++ [x]))
        by (rewrite length_app; reflexivity).
      exact Hnew.
    + cbn [nth_error] in Hy. specialize (Hys k y Hy).
      rewrite <- app_assoc in Hys. cbn [app] in Hys.
      rewrite length_app in Hys. cbn [length] in Hys.
      replace (length p + S (S k))%nat with (length p + 1 + S k)%nat by lia.
      exact Hys.
Qed.

Lemma ewm_mean_recursive span xs :
  (1 <= span)%nat ->
  exists ys,
    ewm_mean false span (map Num xs) = Returned (map Num ys) /\
    length ys = length xs /\
    nth_error ys 0 = nth_error xs 0 /\
    forall i y0 y1 x1,
      nth_error ys i = Some y0 ->
      nth_error ys (S i) = Some y1 ->
      nth_error xs (S i) = Some x1 ->
      y1 == ema_alpha span * x1 + (1 - ema_alpha span) * y0.
Proof.
  intros Hs. unfold ewm_mean. rewrite prep_inf_num.
  destruct (Nat.ltb_spec span 1) as [Hlt|_]; [lia|].
  destruct xs as [|x0 rest].
  - exists []. repeat split; auto. intros [|i] ? ? ? H; discriminate.
  - cbn [map is_nan].
    destruct (ewm_loop_recursive (alpha_of_span span) rest x0 0) as (ys & -> & Hch).
    exists (x0 :: ys). split; [reflexivity|].
    split; [simpl; f_equal; eapply ema_chain_length; eauto|].
    split; [reflexivity|].
    intros i y0 y1 x1 H0 H1 Hx. cbn [nth_error] in H1, Hx.
    rewrite <- (alpha_of_span_eq span Hs).
    eapply ema_chain_nth; eauto.
Qed.

Lemma ewm_mean_adjusted span xs :
  (1 <= span)%nat ->
  exists ys,
    ewm_mean true span (map Num xs) = Returned (map Num ys) /\
    length ys = length xs /\
    nth_error ys 0 = nth_error xs 0 /\
    forall i y,
      nth_error ys i = Some y ->
      y == wsum (1 - ema_alpha span) (rev (firstn (S i) xs))
           / wsum (1 - ema_alpha span) (repeat 1 (S i)).
Proof.
  intros Hs. unfold ewm_mean. rewrite prep_inf_num.
  destruct (Nat.ltb_spec span 1) as [Hlt|_]; [lia|].
  pose proof (alpha_of_span_eq span Hs) as Ha.
  destruct (ema_alpha_bounds span Hs) as (Ha0 & Ha1).
  assert (Hb : 1 - alpha_of_span span == 1 - ema_alpha span)
    by (rewrite Ha; reflexivity).
  destruct xs as [|x0 rest].
  - exists []. repeat split; auto. intros [|i] ? H; discriminate.
  - cbn [map is_nan].
    destruct (ewm_loop_adjusted (alpha_of_span span) rest) with
      (p := [x0]) (w := x0) (ow := 1) (n := 0%nat) as (ys & -> & Hlen & Hys).
    + rewrite Ha. lra.
    + simpl; lia.
    + cbn [length repeat wsum]. ring.
    + cbn [length repeat wsum rev app]. field; lra.
    + exists (x0 :: ys). split; [reflexivity|].
      split; [simpl; lia|]. split; [reflexivity|].
      intros [|i] y Hy.
      * injection Hy as <-. cbn [firstn rev app repeat wsum]. field; lra.
      * cbn [nth_error] in Hy. specialize (Hys i y Hy).
        cbn [app length Nat.add firstn] in Hys. cbn [firstn].
        rewrite Hys.
        rewrite (wsum_proper _ _ (rev (x0 :: firstn (S i) rest)) Hb).
        rewrite (wsum_proper _ _ (repeat 1 (S (S i))) Hb).
        reflexivity.
Qed.

Lemma add_macd_stages df fast slow signal macd macd_signal macd_hist :
  add_macd df fast slow signal = Returned (macd, macd_signal, macd_hist) ->
  exists ema_fast ema_slow,
    ewm_mean false fast (col Close df) = Returned ema_fast /\
    ewm_mean false slow (col Close df) = Returned ema_slow /\
    macd = s_sub ema_fast ema_slow /\
    ewm_mean false signal macd = Returned macd_signal.
Proof.
  unfold add_macd. intros H.
  destruct (ewm_mean false fast (col Close df)) as [ef|]; [|discriminate].
  destruct (ewm_mean false slow (col Close df)) as [es|]; [|discriminate].
  cbn [bind] in H.
  destruct (ewm_mean false signal (s_sub ef es)) as [sg|] eqn:E; [|discriminate].
  cbn [bind] in H. injection H as <- <- <-.
  exists ef, es. repeat split; auto.
Qed.

Lemma add_cvo_stages df short long cvo vol_short vol_long :
  add_cvo df short long = Returned (cvo, vol_short, vol_long) ->
  ewm_mean false short (col Volume df) = Returned vol_short /\
  ewm_mean false long (col Volume df) = Returned vol_long.
Proof.
  unfold add_cvo. intros H.
  destruct (ewm_mean false short (col Volume df)) as [vs|]; [|discriminate].
  destruct (ewm_mean false long (col Volume df)) as [vl|]; [|discriminate].
  cbn [bind] in H. injection H as <- <- <-. auto.
Qed.

Lemma app10_macd_stages close macd signal :
  App10.MACD close = Returned (macd, signal) ->
  exists ema12 ema26,
    ewm_mean true 12 close = Returned ema12 /\
    ewm_mean true 26 close = Returned ema26 /\
    macd = s_sub ema12 ema26 /\
    ewm_mean true 9 macd = Returned signal.
Proof.
  unfold App10.MACD. intros H.
  destruct (ewm_mean true 12 close) as [e12|]; [|discriminate].
  destruct (ewm_mean true 26 close) as [e26|]; [|discriminate].
  cbn [bind] in H.
  destruct (ewm_mean true 9 (s_sub e12 e26)) as [sg|] eqn:E; [|discriminate].
  cbn [bind] in H. injection H as <- <-.
  exists e12, e26. repeat split; auto.
Qed.

(** C3, as the code has it.  In tradingbot.py every EMA (the two MACD
    EMAs, the MACD signal line and the two CVO volume EMAs) is computed
    with [adjust=False]: EMA[0] = value[0] and, for i >= 1,
    EMA[i] = alpha * value[i] + (1 - alpha) * EMA[i-1] with
    alpha = 2 / (span + 1).  In app10.py every EMA (EMA9, EMA21, EMA50, the
    two MACD EMAs and the signal line) is computed with pandas' default
    adjusted weights: EMA[0] = value[0] and EMA[i] is the sum over j <= i
    of (1 - alpha)^(i-j) * value[j], divided by the sum of the weights
    (1 - alpha)^(i-j). *)
Theorem ema_conventions (span : nat) (xs : list Q) :
  (1 <= span)%nat ->
  (exists ys,
     ewm_mean false span (map Num xs) = Returned (map Num ys) /\
     length ys = length xs /\
     nth_error ys 0 = nth_error xs 0 /\
     forall i y0 y1 x1,
       nth_error ys i = Some y0 ->
       nth_error ys (S i) = Some y1 ->
       nth_error xs (S i) = Some x1 ->
       y1 == ema_alpha span * x1 + (1 - ema_alpha span) * y0) /\
  (forall df fast slow signal macd macd_signal macd_hist,
     add_macd df fast slow signal = Returned (macd, macd_signal, macd_hist) ->
     exists ema_fast ema_slow,
       ewm_mean false fast (col Close df) = Returned ema_fast /\
       ewm_mean false slow (col Close df) = Returned ema_slow /\
       macd = s_sub ema_fast ema_slow /\
       ewm_mean false signal macd = Returned macd_signal) /\
  (forall df short long cvo vol_short vol_long,
     add_cvo df short long = Returned (cvo, vol_short, vol_long) ->
     ewm_mean false short (col Volume df) = Returned vol_short /\
     ewm_mean false long (col Volume df) = Returned vol_long) /\
  (exists ys,
     App10.EMA span (map Num xs) = Returned (map Num ys) /\
     length ys = length xs /\
     nth_error ys 0 = nth_error xs 0 /\
     forall i y,
       nth_error ys i = Some y ->
       y == wsum (1 - ema_alpha span) (rev (firstn (S i) xs))
            / wsum (1 - ema_alpha span) (repeat 1 (S i))) /\
  (forall close macd signal,
     App10.MACD close = Returned (macd, signal) ->
     exists ema12 ema26,
       App10.EMA 12 close = Returned ema12 /\
       App10.EMA 26 close = Returned ema26 /\
       macd = s_sub ema12 ema26 /\
       App10.EMA 9 macd = Returned signal).
Proof.
  intros Hs.
  split; [now apply ewm_mean_recursive|].
  split; [apply add_macd_stages|].
  split; [apply add_cvo_stages|].
  split; [now apply ewm_mean_adjusted|].
  apply app10_macd_stages.
Qed.

Lemma ema_conventions_witness :
  (exists ys,
     ewm_mean false 9 (map Num [100; 101; 103]) = Returned (map Num ys) /\
     length ys = length [100; 101; 103] /\
     nth_error ys 0 = nth_error [100; 101; 103] 0 /\
     forall i y0 y1 x1,
       nth_error ys i = Some y0 ->
       nth_error ys (S i) = Some y1 ->
       nth_error [100; 101; 103] (S i) = Some x1 ->
       y1 == ema_alpha 9 * x1 + (1 - ema_alpha 9) * y0) /\
  (exists ys,
     App10.EMA 9 (map Num [100; 101; 103]) = Returned (map Num ys) /\
     length ys = length [100; 101; 103] /\
     nth_error ys 0 = nth_error [100; 101; 103] 0 /\
     forall i y,
       nth_error ys i = Some y ->
       y == wsum (1 - ema_alpha 9) (rev (firstn (S i) [100; 101; 103]))
            / wsum (1 - ema_alpha 9) (repeat 1 (S i))).
Proof.
  assert (H9 : (1 <= 9)%nat) by lia.
  destruct (ema_conventions 9 [100; 101; 103] H9) as (Hrec & _ & _ & Hadj & _).
  split; assumption.
Defined.

(** On fifty rising closes the script's EMA9 starts at the first close,
    100, but its second value is not alpha * 101 + (1 - alpha) * 100. *)
Lemma app10_ema_breaks_recurrence :
  exists ys y0 y1,
    App10.EMA9 rising_closes = Returned ys /\
    length ys = 50%nat /\
    nth_error rising_closes 0 = Some (Num 100) /\
    nth_error rising_closes 1 = Some (Num 101) /\
    nth_error ys 0 = Some (Num y0) /\
    nth_error ys 1 = Some (Num y1) /\
    y0 == 100 /\
    ema_alpha 9 * 101 + (1 - ema_alpha 9) * y0 < y1.
Proof.
  do 3 eexists.
  split; [vm_compute; reflexivity|].
  split; [reflexivity|].
  split; [reflexivity|].
  split; [reflexivity|].
  split; [reflexivity|].
  split; [reflexivity|].
  split; reflexivity.
Qed.

(** * Further properties of the scripts *)

(** ** Comparisons of finite values *)

Lemma Qle_bool_false x y : Qle_bool x y = false <-> y < x.
Proof.
  split; intros H.
  - apply Qnot_le_lt. intros Hle. apply Qle_bool_iff in Hle. congruence.
  - destruct (Qle_bool x y) eqn:E; auto.
    apply Qle_bool_iff in E. lra.
Qed.

Lemma fleb_num x y : fleb (Num x) (Num y) = Qle_bool x y.
Proof.
  unfold fleb, fgeb, fgtb, feqb, Qltb.
  destruct (Qle_bool x y) eqn:E.
  - apply Qle_bool_iff in E.
    destruct (Qle_bool y x) eqn:E1; [|reflexivity].
    apply Qle_bool_iff in E1. cbn [negb orb].
    apply Qeq_bool_iff. lra.
  - apply Qle_bool_false in E.
    destruct (Qle_bool y x) eqn:E1.
    + cbn [negb orb]. destruct (Qeq_bool y x) eqn:E2; [|reflexivity].
      apply Qeq_bool_iff in E2. lra.
    + apply Qle_bool_false in E1. lra.
Qed.

Lemma fgeb_num x y : fgeb (Num x) (Num y) = Qle_bool y x.
Proof. apply (fleb_num y x). Qed.

(** ** The put signals (app11.py) *)

(** X1: on a bar where the entry condition holds the two DI(20) lines are
    at least 15 apart, so the DMI half of the exit condition is off: the
    exit flag of that bar is the price-above-MA8 test alone, and the
    status shown is the entry signal. *)
Theorem put_entry_blocks_dmi_exit (r : App11.Row) :
  App11.PUT_ENTRY r = true ->
  fltb (App11.DMI_DIFF r) (Num 10) = false /\
  App11.PUT_EXIT r = fgtb (App11.Close r) (App11.MA8 r) /\
  App11.strategy_status r = App11.PUT_ENTRY_SIGNAL_ACTIVE.
Proof.
  intros H.
  assert (Hd : fltb (App11.DMI_DIFF r) (Num 10) = false).
  { unfold App11.PUT_ENTRY in H.
    repeat (apply andb_prop in H; destruct H as [H ?]).
    unfold App11.DMI_DIFF.
    destruct (App11.minus_DI_20 r) as [m| | |]; try discriminate;
      destruct (App11.plus_DI_20 r) as [p| | |]; try discriminate;
      try reflexivity.
    rewrite fgeb_num in *. rewrite fleb_num in *.
    repeat match goal with
           | E : Qle_bool _ _ = true |- _ => apply Qle_bool_iff in E
           end.
    unfold fltb. cbn [fsub fneg fadd fabs fgtb].
    apply Qltb_false.
    pose proof (Qle_Qabs (- (p + - m))) as A. rewrite Qabs_opp in A. lra. }
  split; [exact Hd|]. split.
  - unfold App11.PUT_EXIT. rewrite Hd. reflexivity.
  - unfold App11.strategy_status. rewrite H. reflexivity.
Qed.

Definition entry_row : App11.Row :=
  App11.mk_row (Num 99) (Num 30) (Num (-90)) (Num 10) (Num 40) (Num 10) (Num 35)
    (Num 100).

Lemma put_entry_blocks_dmi_exit_witness :
  App11.PUT_ENTRY entry_row = true /\
  fltb (App11.DMI_DIFF entry_row) (Num 10) = false /\
  App11.PUT_EXIT entry_row = fgtb (App11.Close entry_row) (App11.MA8 entry_row) /\
  App11.strategy_status entry_row = App11.PUT_ENTRY_SIGNAL_ACTIVE.
Proof.
  split; [reflexivity|].
  apply (put_entry_blocks_dmi_exit entry_row). reflexivity.
Defined.

(** ** The entry checker (app12.py) *)

(** Whether the checker ends on the "entry signal confirmed" message for
    what was typed under the timeframe. *)
Definition entry_confirmed (tf : App12.timeframe) (t : App12.Typed) : bool :=
  match App12.check_entry tf (App12.collect_inputs tf t) with
  | Returned (_, all_conditions_met) => all_conditions_met
  | Raised _ => false
  end.

(** X2: for every timeframe and whatever was typed, the logic only reads
    variables the inputs of that timeframe have set: it returns, with two
    lines for "2 HOURS" and "2 MINUTES" and five for "10 MINUTES", and the
    flag it ends with is true exactly when every line is a pass line. *)
Theorem check_entry_returns (tf : App12.timeframe) (t : App12.Typed) :
  exists check_list all_conditions_met,
    App12.check_entry tf (App12.collect_inputs tf t)
      = Returned (check_list, all_conditions_met) /\
    length check_list
      = match tf with App12.TEN_MINUTES => 5%nat | _ => 2%nat end /\
    all_conditions_met = forallb App12.passed check_list.
Proof.
  destruct t as [wr rsi bb d6n d6p d20n d20p].
  destruct tf; unfold App12.check_entry, App12.collect_inputs, App12.check,
    App12.py_between, App12.py_ge_and_le, App12.py_ge, App12.py_le;
    cbn [App12.wr_input App12.rsi_input App12.bb60_input App12.dmi6_neg
         App12.dmi6_pos App12.dmi20_neg App12.dmi20_pos
         App12.typed_wr App12.typed_rsi App12.typed_bb60 App12.typed_dmi6_neg
         App12.typed_dmi6_pos App12.typed_dmi20_neg App12.typed_dmi20_pos bind];
    repeat match goal with
           | |- context [Qle_bool ?a ?b] => destruct (Qle_bool a b); cbn [bind]
           end;
    do 2 eexists; (split; [reflexivity|]); split; reflexivity.
Qed.

(** The row the scanner of app11.py sees for the same indicator values. *)
Definition row_of (t : App12.Typed) (close ma8 : fval) : App11.Row :=
  App11.mk_row close (Num (App12.typed_rsi t)) (Num (App12.typed_wr t))
    (Num (App12.typed_dmi6_pos t)) (Num (App12.typed_dmi6_neg t))
    (Num (App12.typed_dmi20_pos t)) (Num (App12.typed_dmi20_neg t)) ma8.

(** X3: the rules of "10 MINUTES" contain those of the other two
    timeframes and those of the scanner: values that confirm a 10-minute
    entry also confirm the 2-hour and the 2-minute entry and set PUT_ENTRY
    in app11.py. *)
Theorem ten_minute_entry_is_strictest (t : App12.Typed) (close ma8 : fval) :
  entry_confirmed App12.TEN_MINUTES t = true ->
  entry_confirmed App12.TWO_HOURS t = true /\
  entry_confirmed App12.TWO_MINUTES t = true /\
  App11.PUT_ENTRY (row_of t close ma8) = true.
Proof.
  destruct t as [wr rsi bb d6n d6p d20n d20p].
  unfold entry_confirmed, App11.PUT_ENTRY, row_of.
  cbn [App11.WR App11.RSI App11.minus_DI_6 App11.plus_DI_6
       App11.minus_DI_20 App11.plus_DI_20].
  rewrite !fleb_num, !fgeb_num.
  unfold App12.check_entry, App12.collect_inputs, App12.check,
    App12.py_between, App12.py_ge_and_le, App12.py_ge, App12.py_le.
  cbn [App12.wr_input App12.rsi_input App12.bb60_input App12.dmi6_neg
       App12.dmi6_pos App12.dmi20_neg App12.dmi20_pos
       App12.typed_wr App12.typed_rsi App12.typed_bb60 App12.typed_dmi6_neg
       App12.typed_dmi6_pos App12.typed_dmi20_neg App12.typed_dmi20_pos bind].
  repeat match goal with
         | |- context [Qle_bool ?a ?b] => destruct (Qle_bool a b); cbn [bind]
         end;
    cbn; intros H; try discriminate H; repeat split; reflexivity.
Qed.

Definition bearish_values : App12.Typed :=
  App12.mk_typed (-90) 30 30 40 10 35 10.

Lemma ten_minute_entry_is_strictest_witness :
  entry_confirmed App12.TEN_MINUTES bearish_values = true /\
  entry_confirmed App12.TWO_HOURS bearish_values = true /\
  entry_confirmed App12.TWO_MINUTES bearish_values = true /\
  App11.PUT_ENTRY (row_of bearish_values (Num 99) (Num 100)) = true.
Proof.
  split; [reflexivity|].
  apply (ten_minute_entry_is_strictest bearish_values (Num 99) (Num 100)).
  reflexivity.
Defined.

(** ** The exit rules (app11.py, app12.py) *)

(** Rounding to the nearest multiple of 2^-49, the spacing of the doubles
    between 8 and 16, ties away from zero. *)
Definition grid : Q := inject_Z (2 ^ 49).

Definition grid_round (q : Q) : Q :=
  let m := inject_Z (Qfloor (Qabs q * grid + (1 # 2))) / grid in
  if Qle_bool 0 q then m else - m.

Lemma grid_pos : 0 < grid.
Proof. reflexivity. Qed.

Lemma grid_round_nonneg_part q : 0 <= inject_Z (Qfloor (Qabs q * grid + (1 # 2))) / grid.
Proof.
  apply Qle_shift_div_l; [exact grid_pos|].
  rewrite Qmult_0_l. change 0 with (inject_Z 0). rewrite <- Zle_Qle.
  apply Qfloor_resp_le with (x := 0) (y := Qabs q * grid + (1 # 2)).
  pose proof (Qabs_nonneg q). pose proof grid_pos. 
  assert (0 <= Qabs q * grid) by (apply Qmult_le_0_compat; lra). lra.
Qed.

Lemma grid_round_compat x y : x == y -> grid_round x == grid_round y.
Proof.
  intros E. unfold grid_round.
  assert (F : Qfloor (Qabs x * grid + (1 # 2)) = Qfloor (Qabs y * grid + (1 # 2))).
  { apply Qfloor_comp. rewrite E. reflexivity. }
  rewrite F.
  destruct (Qle_bool 0 x) eqn:A, (Qle_bool 0 y) eqn:B; try reflexivity.
  - apply Qle_bool_iff in A. rewrite E in A. apply Qle_bool_iff in A. congruence.
  - apply Qle_bool_iff in B. rewrite <- E in B. apply Qle_bool_iff in B. congruence.
Qed.

Lemma grid_round_monotone x y : x <= y -> grid_round x <= grid_round y.
Proof.
  intros H. unfold grid_round.
  pose proof (grid_round_nonneg_part x) as Nx.
  pose proof (grid_round_nonneg_part y) as Ny.
  pose proof grid_pos as G.
  destruct (Qle_bool 0 x) eqn:A, (Qle_bool 0 y) eqn:B.
  - apply Qle_bool_iff in A. apply Qle_bool_iff in B.
    apply Qmult_le_compat_r; [|apply Qlt_le_weak, Qinv_lt_0_compat, G].
    rewrite <- Zle_Qle. apply Qfloor_resp_le.
    rewrite !Qabs_pos by assumption.
    assert (x * grid <= y * grid) by (apply Qmult_le_compat_r; lra). lra.
  - apply Qle_bool_iff in A. apply Qle_bool_false in B. lra.
  - lra.
  - apply Qle_bool_false in A. apply Qle_bool_false in B.
    apply Qopp_le_compat.
    apply Qmult_le_compat_r; [|apply Qlt_le_weak, Qinv_lt_0_compat, G].
    rewrite <- Zle_Qle. apply Qfloor_resp_le.
    rewrite !Qabs_neg by lra.
    assert (- y * grid <= - x * grid) by (apply Qmult_le_compat_r; lra). lra.
Qed.

Lemma grid_round_opp x : grid_round (- x) == - grid_round x.
Proof.
  unfold grid_round. 
  assert (F : Qfloor (Qabs (- x) * grid + (1 # 2)) = Qfloor (Qabs x * grid + (1 # 2))).
  { apply Qfloor_comp. rewrite Qabs_opp. reflexivity. }
  rewrite F.
  destruct (Qle_bool 0 (- x)) eqn:A, (Qle_bool 0 x) eqn:B.
  - apply Qle_bool_iff in A. apply Qle_bool_iff in B.
    assert (E : x == 0) by lra.
    assert (Z0 : Qfloor (Qabs x * grid + (1 # 2)) = 0%Z).
    { transitivity (Qfloor (1 # 2)); [|reflexivity].
      apply Qfloor_comp. rewrite E. reflexivity. }
    rewrite Z0. reflexivity.
  - rewrite Qopp_involutive. reflexivity.
  - reflexivity.
  - apply Qle_bool_false in A. apply Qle_bool_false in B. lra.
Qed.

Lemma Qfloor_half (k : Z) : Qfloor (inject_Z k + (1 # 2)) = k.
Proof.
  pose proof (Qfloor_le (inject_Z k + (1 # 2))) as L.
  pose proof (Qlt_floor (inject_Z k + (1 # 2))) as U.
  set (f := Qfloor (inject_Z k + (1 # 2))) in *.
  rewrite inject_Z_plus in U.
  assert (A : (f < k + 1)%Z).
  { rewrite Zlt_Qlt, inject_Z_plus. change (inject_Z 1) with 1. lra. }
  assert (B : (k < f + 1)%Z).
  { rewrite Zlt_Qlt, inject_Z_plus. change (inject_Z 1) with 1 in *. lra. }
  lia.
Qed.

Lemma grid_round_integer (z : Z) : grid_round (inject_Z z) == inject_Z z.
Proof.
  assert (P : forall n : Z, (0 <= n)%Z ->
             inject_Z (Qfloor (Qabs (inject_Z n) * grid + (1 # 2))) / grid
             == inject_Z n).
  { intros n Hn.
    assert (F : Qfloor (Qabs (inject_Z n) * grid + (1 # 2)) = (n * 2 ^ 49)%Z).
    { rewrite <- (Qfloor_half (n * 2 ^ 49)). apply Qfloor_comp.
      rewrite Qabs_pos by (change 0 with (inject_Z 0); rewrite <- Zle_Qle; exact Hn).
      unfold grid. rewrite inject_Z_mult. reflexivity. }
    rewrite F, inject_Z_mult. fold grid. field.
    pose proof grid_pos. lra. }
  unfold grid_round. destruct (Qle_bool 0 (inject_Z z)) eqn:A.
  - apply Qle_bool_iff in A. apply P.
    change 0 with (inject_Z 0) in A. now rewrite <- Zle_Qle in A.
  - apply Qle_bool_false in A.
    change 0 with (inject_Z 0) in A. rewrite <- Zlt_Qlt in A.
    assert (E : Qfloor (Qabs (inject_Z z) * grid + (1 # 2))
                = Qfloor (Qabs (inject_Z (- z)) * grid + (1 # 2))).
    { apply Qfloor_comp. rewrite inject_Z_opp, Qabs_opp. reflexivity. }
    rewrite E, (P (- z)%Z) by lia. rewrite inject_Z_opp. ring.
Qed.

Definition grid_rounding : Rounding :=
  {| rnd := grid_round;
     rnd_compat := grid_round_compat;
     rnd_monotone := grid_round_monotone;
     rnd_opp := grid_round_opp;
     rnd_integer := fun z _ => grid_round_integer z |}.

Lemma overflow_threshold_large : 10 < overflow_threshold.
Proof. reflexivity. Qed.

(** The exit signal of the calculator, by the rounded difference. *)
Lemma dmi_exit_signal {R : Rounding} (a b : Q) :
  App12.dmi_exit a b = App12.EXIT_SIGNAL <-> Qabs (rnd (a - b)) < 10.
Proof.
  unfold App12.dmi_exit, overflow. pose proof overflow_threshold_large as T.
  destruct (Qle_bool overflow_threshold (rnd (a - b))) eqn:E1.
  - apply Qle_bool_iff in E1. cbn. split; [discriminate|].
    intros H. apply Qabs_Qlt_condition in H. lra.
  - apply Qle_bool_false in E1.
    destruct (Qle_bool (rnd (a - b)) (- overflow_threshold)) eqn:E2.
    + apply Qle_bool_iff in E2. cbn. split; [discriminate|].
      intros H. apply Qabs_Qlt_condition in H. lra.
    + cbn [fabs fltb fgtb].
      destruct (Qltb (Qabs (rnd (a - b))) 10) eqn:E.
      * apply Qltb_true in E. split; auto.
      * apply Qltb_false in E. split; [discriminate|]. lra.
Qed.

Lemma rnd_ten {R : Rounding} : rnd 10 == 10.
Proof. apply (rnd_integer 10). vm_compute. discriminate. Qed.

Lemma rnd_abs_lower {R : Rounding} (x : Q) : 10 <= Qabs x -> 10 <= Qabs (rnd x).
Proof.
  intros H. destruct (Qlt_le_dec x 0) as [N|P].
  - rewrite Qabs_neg in H by lra.
    assert (L : rnd x <= rnd (- (10))) by (apply rnd_monotone; lra).
    rewrite rnd_opp, rnd_ten in L.
    rewrite Qabs_neg by lra. lra.
  - rewrite Qabs_pos in H by lra.
    assert (L : rnd 10 <= rnd x) by (apply rnd_monotone; lra).
    rewrite rnd_ten in L. rewrite Qabs_pos by lra. lra.
Qed.

Lemma rnd_abs_upper {R : Rounding} (x c : Q) :
  rnd c == c -> Qabs x <= c -> Qabs (rnd x) <= c.
Proof.
  intros Hc H. apply Qabs_Qle_condition in H. destruct H as (L & U).
  apply Qabs_Qle_condition. split.
  - assert (M : rnd (- c) <= rnd x) by (apply rnd_monotone; exact L).
    rewrite rnd_opp, Hc in M. exact M.
  - assert (M : rnd x <= rnd c) by (apply rnd_monotone; exact U).
    rewrite Hc in M. exact M.
Qed.

(** X4: the 2-minute exit calculator signals an exit only when +DI and
    -DI are less than 10 apart, and does signal it when they are at most
    a double below 10 apart; the answer is the same whichever of the two
    is the larger.  The 10-minute checker holds exactly when the price
    is not above the MA(8) and warns exactly when it is above.  On a bar
    with these finite values the PUT_EXIT flag of app11.py is set
    whenever one of the two calculators asks for the exit. *)
Theorem exit_rules_agree {R : Rounding} (r : App11.Row)
    (pos neg price ma8 : Q) (previous_price : option Q) :
  App11.plus_DI_20 r = Num pos ->
  App11.minus_DI_20 r = Num neg ->
  App11.Close r = Num price ->
  App11.MA8 r = Num ma8 ->
  (App12.dmi_exit pos neg = App12.EXIT_SIGNAL ->
     -(10) < pos - neg /\ pos - neg < 10) /\
  (forall c, rnd c == c -> c < 10 -> Qabs (pos - neg) <= c ->
     App12.dmi_exit pos neg = App12.EXIT_SIGNAL) /\
  App12.dmi_exit pos neg = App12.dmi_exit neg pos /\
  (In App12.HOLD_BELOW_MA (App12.ma_cross ma8 price previous_price) <->
     price <= ma8) /\
  (In App12.EXIT_WARNING (App12.ma_cross ma8 price previous_price) <->
     ma8 < price) /\
  (App12.dmi_exit pos neg = App12.EXIT_SIGNAL \/
   In App12.EXIT_WARNING (App12.ma_cross ma8 price previous_price) ->
   App11.PUT_EXIT r = true).
Proof.
  intros Hp Hn Hc Hm.
  assert (Hband : App12.dmi_exit pos neg = App12.EXIT_SIGNAL ->
                  Qabs (pos - neg) < 10).
  { intros H. apply dmi_exit_signal in H.
    destruct (Qlt_le_dec (Qabs (pos - neg)) 10) as [L|G]; [exact L|].
    apply rnd_abs_lower in G. lra. }
  assert (Hwarn : In App12.EXIT_WARNING
                    (App12.ma_cross ma8 price previous_price) <-> ma8 < price).
  { unfold App12.ma_cross. destruct (Qltb ma8 price) eqn:E.
    - apply Qltb_true in E. split; [intros _; exact E|].
      intros _. left. reflexivity.
    - apply Qltb_false in E. split; [|intros H; lra].
      intros [H|H]; [discriminate|contradiction]. }
  split.
  { intros H. apply Qabs_Qlt_condition. exact (Hband H). }
  split.
  { intros c Hr Hlt Hle. apply dmi_exit_signal.
    pose proof (rnd_abs_upper (pos - neg) c Hr Hle). lra. }
  split.
  { assert (S : forall a b, App12.dmi_exit a b = App12.EXIT_SIGNAL ->
                            App12.dmi_exit b a = App12.EXIT_SIGNAL).
    { intros a b H. apply dmi_exit_signal in H. apply dmi_exit_signal.
      assert (E : rnd (b - a) == - rnd (a - b)).
      { rewrite <- rnd_opp. apply rnd_compat. ring. }
      rewrite E, Qabs_opp. exact H. }
    destruct (App12.dmi_exit pos neg) eqn:E1, (App12.dmi_exit neg pos) eqn:E2;
      try reflexivity.
    - apply S in E1. congruence.
    - apply S in E2. congruence. }
  split.
  { unfold App12.ma_cross. destruct (Qltb ma8 price) eqn:E.
    - apply Qltb_true in E. split.
      + intros [H|H]; [discriminate|].
        destruct previous_price as [p|]; [|contradiction].
        destruct (Qle_bool p ma8 && true)%bool; [|contradiction].
        destruct H as [H|H]; [discriminate|contradiction].
      + intros H. lra.
    - apply Qltb_false in E. split; [intros _; exact E|].
      intros _. left. reflexivity. }
  split; [exact Hwarn|].
  intros H. unfold App11.PUT_EXIT, App11.DMI_DIFF. rewrite Hp, Hn, Hc, Hm.
  unfold fltb. cbn [fsub fneg fadd fabs fgtb].
  change (pos + - neg) with (pos - neg).
  destruct H as [H|H].
  - apply Hband in H. apply Qltb_true in H. rewrite H. reflexivity.
  - apply Hwarn in H. apply Qltb_true in H. rewrite H. apply orb_true_r.
Qed.

(** A bar on which both calculators ask for the exit: +DI 25 and -DI 18,
    the values the calculator starts with, and a price above the MA(8). *)
Definition exit_row : App11.Row :=
  App11.mk_row (Num 101) (Num 50) (Num (-50)) (Num 20) (Num 20) (Num 25)
    (Num 18) (Num 100).

Lemma exit_rules_agree_witness :
  (@App12.dmi_exit grid_rounding 25 18 = App12.EXIT_SIGNAL ->
     -(10) < 25 - 18 /\ 25 - 18 < 10) /\
  (forall c, grid_round c == c -> c < 10 -> Qabs (25 - 18) <= c ->
     @App12.dmi_exit grid_rounding 25 18 = App12.EXIT_SIGNAL) /\
  @App12.dmi_exit grid_rounding 25 18 = @App12.dmi_exit grid_rounding 18 25 /\
  (In App12.HOLD_BELOW_MA (App12.ma_cross 100 101 (Some 99)) <-> 101 <= 100) /\
  (In App12.EXIT_WARNING (App12.ma_cross 100 101 (Some 99)) <-> 100 < 101) /\
  (@App12.dmi_exit grid_rounding 25 18 = App12.EXIT_SIGNAL \/
   In App12.EXIT_WARNING (App12.ma_cross 100 101 (Some 99)) ->
   App11.PUT_EXIT exit_row = true).
Proof.
  apply (@exit_rules_agree grid_rounding exit_row 25 18 101 100 (Some 99));
    reflexivity.
Defined.

(** ** Directional movement (tradingbot.py) *)

Lemma fgtb_asym a b : fgtb a b = true -> fgtb b a = false.
Proof.
  destruct a as [x| | |], b as [y| | |]; simpl; try discriminate; auto.
  intros H. apply Qltb_true in H. apply Qltb_false. lra.
Qed.

Lemma dm_where_exclusive a b :
  dm_where a b = Num 0 \/ dm_where b a = Num 0.
Proof.
  unfold dm_where. destruct (fgtb a b) eqn:E.
  - right. rewrite (fgtb_asym _ _ E). reflexivity.
  - left. reflexivity.
Qed.

(** X5: whatever the bars hold, at no position are the upward and the
    downward directional movement both different from 0. *)
Theorem directional_movements_exclusive (df : DataFrame) :
  Forall2 (fun p m => p = Num 0 \/ m = Num 0)
    (adx_plus_dm df) (adx_minus_dm df).
Proof.
  apply forall2_intro.
  - now rewrite adx_plus_dm_length, adx_minus_dm_length.
  - intros j p m. unfold adx_plus_dm, adx_minus_dm.
    rewrite !zip_with_nth_error.
    destruct (nth_error (adx_up df) j) as [u|]; [|discriminate].
    destruct (nth_error (adx_down df) j) as [d|]; [|discriminate].
    intros Hp Hm. injection Hp as <-. injection Hm as <-.
    apply dm_where_exclusive.
Qed.

(** ** Fibonacci levels (tradingbot.py) *)

Lemma tail_app {A : Type} (older recent : list A) :
  tail (length recent) (older ++ recent) = recent.
Proof.
  unfold tail. rewrite length_app.
  replace (length older + length recent - length recent)%nat
    with (length older + 0)%nat by lia.
  rewrite skipn_app, Nat.add_0_r, skipn_all.
  replace (length older - length older)%nat with 0%nat by lia.
  reflexivity.
Qed.

Lemma tail_all {A : Type} (n : nat) (df : list A) :
  (length df <= n)%nat -> tail n df = df.
Proof.
  intros H. unfold tail.
  replace (length df - n)%nat with 0%nat by lia. reflexivity.
Qed.

(** X6: the levels depend on the last [lookback] bars only: a lookback
    that is at least as long as the frame gives the levels of the whole
    frame, and these are also the levels of any longer frame that ends
    with the same bars when the lookback is their number. *)
Theorem fibonacci_levels_window (older recent : DataFrame) (lookback : nat) :
  (2 <= length recent)%nat ->
  (length recent <= lookback)%nat ->
  fibonacci_levels recent lookback
    = fibonacci_levels recent (length recent) /\
  fibonacci_levels (older ++ recent) (length recent)
    = fibonacci_levels recent lookback.
Proof.
  intros Hn Hl. unfold fibonacci_levels.
  rewrite tail_app, (tail_all lookback recent), (tail_all (length recent) recent)
    by lia.
  rewrite length_app.
  destruct (Nat.ltb_spec (length older + length recent) 2); [lia|].
  destruct (Nat.ltb_spec (length recent) 2); [lia|]. split; reflexivity.
Qed.

Lemma fibonacci_levels_window_witness :
  fibonacci_levels two_bars 5 = fibonacci_levels two_bars (length two_bars) /\
  fibonacci_levels (five_bars ++ two_bars) (length two_bars)
    = fibonacci_levels two_bars 5.
Proof.
  apply (fibonacci_levels_window five_bars two_bars 5); simpl; lia.
Defined.

(** ** Exponential moving averages and the range of their input *)

Lemma in_range_series lo hi (s : Series) :
  Forall (in_range lo hi) s ->
  exists xs, s = map Num xs /\ forall x, In x xs -> lo <= x /\ x <= hi.
Proof.
  induction 1 as [|v s Hv _ (xs & -> & Hxs)].
  - exists []. split; [reflexivity|]. intros x [].
  - destruct v as [q| | |]; try contradiction.
    exists (q :: xs). split; [reflexivity|].
    intros x [<-|Hx]; auto.
Qed.

Lemma in_range_map_num lo hi (xs : list Q) :
  (forall x, In x xs -> lo <= x /\ x <= hi) ->
  Forall (in_range lo hi) (map Num xs).
Proof.
  intros H. apply Forall_forall. intros v Hv.
  apply in_map_iff in Hv. destruct Hv as (x & <- & Hx). apply H, Hx.
Qed.

Lemma in_range_weaken lo hi lo' hi' v :
  lo' <= lo -> hi <= hi' -> in_range lo hi v -> in_range lo' hi' v.
Proof.
  intros Hl Hh. destruct v; simpl; auto. intros [H1 H2]. split; lra.
Qed.

Lemma alpha_of_span_bounds span :
  (1 <= span)%nat -> 0 < alpha_of_span span /\ alpha_of_span span <= 1.
Proof.
  intros H. rewrite (alpha_of_span_eq span H). now apply ema_alpha_bounds.
Qed.

(** A mean of two values with non-negative weights lies between them. *)
Lemma weighted_mean_between (a b w x lo hi : Q) :
  0 <= a -> 0 < b -> lo <= w <= hi -> lo <= x <= hi ->
  lo <= (a * w + b * x) / (a + b) <= hi.
Proof.
  intros Ha Hb [Hw1 Hw2] [Hx1 Hx2].
  assert (A1 : 0 <= a * (w - lo)) by (apply Qmult_le_0_compat; lra).
  assert (A2 : 0 <= a * (hi - w)) by (apply Qmult_le_0_compat; lra).
  assert (B1 : 0 <= b * (x - lo)) by (apply Qmult_le_0_compat; lra).
  assert (B2 : 0 <= b * (hi - x)) by (apply Qmult_le_0_compat; lra).
  split.
  - apply Qle_shift_div_l; [lra|]. lra.
  - apply Qle_shift_div_r; [lra|]. lra.
Qed.

Lemma ewm_loop_bounded (adjust : bool) (alpha lo hi : Q) (xs : list Q) :
  0 < alpha -> alpha <= 1 ->
  (forall x, In x xs -> lo <= x /\ x <= hi) ->
  forall w ow n,
    lo <= w <= hi -> 0 < ow ->
    exists ys,
      ewm_loop adjust alpha (mk_ewm (Num w) ow (S n)) (map Num xs) = map Num ys /\
      forall y, In y ys -> lo <= y /\ y <= hi.
Proof.
  intros Ha0 Ha1. induction xs as [|x xs IH]; intros Hxs w ow n Hw How.
  - exists []. split; [reflexivity|]. intros y [].
  - assert (HA : 0 <= ow * (1 - alpha)) by (apply Qmult_le_0_compat; lra).
    assert (HB : 0 < (if adjust then 1 else alpha)) by (destruct adjust; lra).
    destruct (ewm_step_num adjust alpha w ow (S n) x) as (w' & Hstep & Hw').
    { lra. }
    assert (Hb : lo <= w' <= hi).
    { rewrite Hw'. apply weighted_mean_between; auto.
      apply Hxs. now left. }
    destruct (IH (fun y Hy => Hxs y (or_intror Hy)) w'
                 (if adjust then ow * (1 - alpha) + 1 else 1) (S n) Hb)
      as (ys & Hloop & Hys).
    { destruct adjust; lra. }
    exists (w' :: ys). split.
    + cbn [map ewm_loop]. rewrite Hstep, Hloop. reflexivity.
    + intros y [<-|Hy]; auto.
Qed.

Lemma ewm_mean_bounded (adjust : bool) (span : nat) (lo hi : Q) (s : Series) :
  (1 <= span)%nat ->
  Forall (in_range lo hi) s ->
  exists r,
    ewm_mean adjust span s = Returned r /\
    length r = length s /\
    Forall (in_range lo hi) r.
Proof.
  intros Hs Hin. destruct (in_range_series lo hi s Hin) as (xs & -> & Hxs).
  destruct (alpha_of_span_bounds span Hs) as (Ha0 & Ha1).
  unfold ewm_mean. rewrite prep_inf_num.
  destruct (Nat.ltb_spec span 1) as [Hlt|_]; [lia|].
  destruct xs as [|x0 rest].
  - exists []. repeat split; auto.
  - cbn [map is_nan].
    destruct (ewm_loop_bounded adjust (alpha_of_span span) lo hi rest Ha0 Ha1
                (fun y Hy => Hxs y (or_intror Hy)) x0 1 0%nat)
      as (ys & Hloop & Hys).
    { apply Hxs. now left. }
    { lra. }
    rewrite Hloop. exists (map Num (x0 :: ys)). split; [reflexivity|].
    split.
    + pose proof (ewm_loop_length adjust (alpha_of_span span)
                    (mk_ewm (Num x0) 1 1) (map Num rest)) as L.
      rewrite Hloop in L. cbn [map length]. rewrite L. reflexivity.
    + apply in_range_map_num. intros y [<-|Hy]; auto. apply Hxs. now left.
Qed.

Lemma ewm_loop_constant (adjust : bool) (alpha c : Q) (n : nat) :
  forall ow k,
    ewm_loop adjust alpha (mk_ewm (Num c) ow (S k)) (repeat (Num c) n)
    = repeat (Num c) n.
Proof.
  induction n as [|n IH]; intros ow k; [reflexivity|].
  cbn [repeat ewm_loop]. unfold ewm_step at 1 2.
  cbn [weighted old_wt nobs is_nan negb feqb].
  assert (E : Qeq_bool c c = true) by (apply Qeq_bool_iff; reflexivity).
  rewrite E. cbn [negb ewm_output nobs weighted]. f_equal.
  apply IH.
Qed.

Lemma ewm_mean_constant (adjust : bool) (span : nat) (c : Q) (n : nat) :
  (1 <= span)%nat ->
  ewm_mean adjust span (repeat (Num c) n) = Returned (repeat (Num c) n).
Proof.
  intros Hs. unfold ewm_mean.
  destruct (Nat.ltb_spec span 1) as [Hlt|_]; [lia|].
  assert (P : prep_inf (repeat (Num c) n) = repeat (Num c) n).
  { unfold prep_inf. induction n as [|n IH]; [reflexivity|].
    cbn [repeat map is_inf]. now rewrite IH. }
  rewrite P. destruct n as [|n]; [reflexivity|].
  cbn [repeat is_nan ewm_output nobs weighted Nat.leb].
  now rewrite ewm_loop_constant.
Qed.

(** X7: the exponential moving average of a constant Series is that
    constant at every position, with the recursive weights of
    tradingbot.py ([adjust=False]) as with the adjusted weights of
    app10.py: the loop leaves the running mean untouched when the new
    value equals it. *)
Theorem ema_of_constant_series (span : nat) (c : Q) (n : nat) :
  (1 <= span)%nat ->
  ewm_mean false span (repeat (Num c) n) = Returned (repeat (Num c) n) /\
  App10.EMA span (repeat (Num c) n) = Returned (repeat (Num c) n).
Proof.
  intros Hs. split; now apply ewm_mean_constant.
Qed.

Lemma ema_of_constant_series_witness :
  ewm_mean false 9 (repeat (Num 100) 5) = Returned (repeat (Num 100) 5) /\
  App10.EMA 9 (repeat (Num 100) 5) = Returned (repeat (Num 100) 5).
Proof.
  apply (ema_of_constant_series 9 100 5). lia.
Defined.

(** ** Chaikin-style volume oscillator (tradingbot.py) *)

Lemma forall_nth_error {A : Type} (P : A -> Prop) (xs : list A) i x :
  Forall P xs -> nth_error xs i = Some x -> P x.
Proof.
  intros H Hx. rewrite Forall_forall in H. apply H.
  eapply nth_error_In; eauto.
Qed.

Lemma in_range_num lo hi v :
  in_range lo hi v -> exists q, v = Num q /\ lo <= q /\ q <= hi.
Proof. destruct v; simpl; try contradiction. eauto. Qed.




(** ** MACD of a flat price, and with equal spans (tradingbot.py) *)

Lemma s_sub_in_range l1 h1 l2 h2 (a b : Series) :
  Forall (in_range l1 h1) a -> Forall (in_range l2 h2) b ->
  Forall (in_range (l1 - h2) (h1 - l2)) (s_sub a b).
Proof.
  intros Ha Hb. apply Forall_forall. intros z Hz.
  unfold s_sub in Hz. apply zip_with_in in Hz.
  destruct Hz as (x & y & Hx & Hy & ->).
  rewrite Forall_forall in Ha, Hb.
  destruct (in_range_num _ _ _ (Ha x Hx)) as (p & -> & Hp1 & Hp2).
  destruct (in_range_num _ _ _ (Hb y Hy)) as (q & -> & Hq1 & Hq2).
  cbn [fsub fneg fadd in_range]. split; lra.
Qed.

Lemma s_sub_self lo hi (a : Series) :
  Forall (in_range lo hi) a -> Forall (in_range 0 0) (s_sub a a).
Proof.
  intros Ha. apply Forall_forall. intros z Hz.
  apply In_nth_error in Hz. destruct Hz as (i & Hz).
  unfold s_sub in Hz. rewrite zip_with_nth_error in Hz.
  destruct (nth_error a i) as [x|] eqn:E; [|discriminate].
  injection Hz as <-.
  destruct (in_range_num _ _ _ (forall_nth_error _ _ _ _ Ha E)) as (p & -> & _).
  cbn [fsub fneg fadd in_range]. split; lra.
Qed.

Lemma forall_in_range_weaken lo hi lo' hi' (a : Series) :
  lo' <= lo -> hi <= hi' ->
  Forall (in_range lo hi) a -> Forall (in_range lo' hi') a.
Proof.
  intros Hl Hh H. eapply Forall_impl; [|exact H].
  intros v. now apply in_range_weaken.
Qed.

(** From a MACD line that is 0 everywhere: the signal line and the
    histogram are 0 everywhere too. *)
Lemma macd_from_zero_line df fast slow signal ema_fast ema_slow :
  (1 <= signal)%nat ->
  ewm_mean false fast (col Close df) = Returned ema_fast ->
  ewm_mean false slow (col Close df) = Returned ema_slow ->
  length (s_sub ema_fast ema_slow) = length df ->
  Forall (in_range 0 0) (s_sub ema_fast ema_slow) ->
  exists macd macd_signal macd_hist,
    add_macd df fast slow signal = Returned (macd, macd_signal, macd_hist) /\
    length macd = length df /\
    Forall (in_range 0 0) macd /\
    Forall (in_range 0 0) macd_signal /\
    Forall (in_range 0 0) macd_hist.
Proof.
  intros Hsig Ef Es Hlen Hz.
  destruct (ewm_mean_bounded false signal 0 0 _ Hsig Hz) as (sg & Esg & _ & Rsg).
  unfold add_macd. rewrite Ef, Es. cbn [bind]. rewrite Esg. cbn [bind].
  do 3 eexists. split; [reflexivity|]. split; [exact Hlen|].
  split; [exact Hz|]. split; [exact Rsg|].
  eapply forall_in_range_weaken; [| |apply (s_sub_in_range 0 0 0 0); eauto]; lra.
Qed.

(** X10: on a flat price, every close equal to [c], the MACD line, the
    signal line and the histogram are 0 at every bar, whatever the three
    spans. *)
Theorem macd_zero_for_flat_close (df : DataFrame) (fast slow signal : nat) (c : Q) :
  (1 <= fast)%nat -> (1 <= slow)%nat -> (1 <= signal)%nat ->
  Forall (in_range c c) (col Close df) ->
  exists macd macd_signal macd_hist,
    add_macd df fast slow signal = Returned (macd, macd_signal, macd_hist) /\
    length macd = length df /\
    Forall (in_range 0 0) macd /\
    Forall (in_range 0 0) macd_signal /\
    Forall (in_range 0 0) macd_hist.
Proof.
  intros Hf Hs Hsig Hc.
  destruct (ewm_mean_bounded false fast c c _ Hf Hc) as (ef & Ef & Lf & Rf).
  destruct (ewm_mean_bounded false slow c c _ Hs Hc) as (es & Es & Ls & Rs).
  apply (macd_from_zero_line df fast slow signal ef es); auto.
  - unfold s_sub. rewrite zip_with_length, Lf, Ls, col_length. lia.
  - eapply forall_in_range_weaken; [| |apply (s_sub_in_range c c c c); eauto]; lra.
Qed.

Definition flat_bars : DataFrame :=
  repeat (mk_bar (Num 100) (Num 100) (Num 100) (Num 100) (Num 1000)) 5.

Lemma macd_zero_for_flat_close_witness :
  exists macd macd_signal macd_hist,
    add_macd flat_bars 12 26 9 = Returned (macd, macd_signal, macd_hist) /\
    length macd = length flat_bars /\
    Forall (in_range 0 0) macd /\
    Forall (in_range 0 0) macd_signal /\
    Forall (in_range 0 0) macd_hist.
Proof.
  apply (macd_zero_for_flat_close flat_bars 12 26 9 100); [lia|lia|lia|].
  repeat constructor; simpl; lra.
Defined.

(** X11: with the fast span equal to the slow span the MACD line, the
    signal line and the histogram are 0 at every bar, for all finite
    closes. *)
Theorem macd_zero_for_equal_spans (df : DataFrame) (span signal : nat) (lo hi : Q) :
  (1 <= span)%nat -> (1 <= signal)%nat ->
  Forall (in_range lo hi) (col Close df) ->
  exists macd macd_signal macd_hist,
    add_macd df span span signal = Returned (macd, macd_signal, macd_hist) /\
    length macd = length df /\
    Forall (in_range 0 0) macd /\
    Forall (in_range 0 0) macd_signal /\
    Forall (in_range 0 0) macd_hist.
Proof.
  intros Hs Hsig Hc.
  destruct (ewm_mean_bounded false span lo hi _ Hs Hc) as (e & Ee & Le & Re).
  apply (macd_from_zero_line df span span signal e e); auto.
  - unfold s_sub. rewrite zip_with_length, Le, col_length. lia.
  - now apply (s_sub_self lo hi).
Qed.

Lemma macd_zero_for_equal_spans_witness :
  exists macd macd_signal macd_hist,
    add_macd five_bars 12 12 9 = Returned (macd, macd_signal, macd_hist) /\
    length macd = length five_bars /\
    Forall (in_range 0 0) macd /\
    Forall (in_range 0 0) macd_signal /\
    Forall (in_range 0 0) macd_hist.
Proof.
  apply (macd_zero_for_equal_spans five_bars 12 9 99 104); [lia|lia|].
  repeat constructor; simpl; lra.
Defined.

(** ** Rolling windows over finite values *)








(** ** Bollinger Bands after the warm-up (tradingbot.py) *)



(** ** Detrended price oscillator (tradingbot.py) *)

Lemma shift_nth_error_back k a i :
  (k <= i)%nat -> (i < length a)%nat ->
  nth_error (shift k a) i = nth_error a (i - k).
Proof.
  intros Hk Hi. unfold shift.
  rewrite nth_error_firstn.
  destruct (Nat.ltb_spec i (length a)); [|lia].
  rewrite nth_error_app2 by (rewrite repeat_length; lia).
  now rewrite repeat_length.
Qed.



(** ** The range of the RSI (app10.py) *)


(** The RSI from an average gain [x] and an average loss [y]. *)
Lemma rsi_value (x y : Q) :
  0 <= x -> 0 <= y ->
  (x == 0 -> y == 0 ->
   (Num 100 - Num 100 / (Num 1 + Num x / Num y))%F = NaN) /\
  (0 < x -> y == 0 ->
   exists r, (Num 100 - Num 100 / (Num 1 + Num x / Num y))%F = Num r /\
             r == 100) /\
  (0 < y ->
   exists r, (Num 100 - Num 100 / (Num 1 + Num x / Num y))%F = Num r /\
             r == 100 - 100 / (1 + x / y) /\ 0 <= r /\ r < 100).
Proof.
  intros Hx Hy. split; [|split].
  - intros X0 Y0. cbn [fdiv].
    apply Qeq_bool_iff in X0. apply Qeq_bool_iff in Y0. rewrite X0, Y0.
    reflexivity.
  - intros X0 Y0. cbn [fdiv].
    apply Qeq_bool_iff in Y0. rewrite Y0.
    destruct (Qeq_bool x 0) eqn:E; [apply Qeq_bool_iff in E; lra|].
    assert (L : Qltb 0 x = true) by (apply Qltb_true; exact X0).
    rewrite L. cbn [fadd fdiv fsub fneg]. eexists. split; [reflexivity|]. lra.
  - intros Y0. cbn [fdiv].
    destruct (Qeq_bool y 0) eqn:E; [apply Qeq_bool_iff in E; lra|].
    assert (T : 0 <= x / y) by (apply Qle_shift_div_l; lra).
    cbn [fadd fdiv].
    destruct (Qeq_bool (1 + x / y) 0) eqn:E1; [apply Qeq_bool_iff in E1; lra|].
    cbn [fsub fneg fadd]. eexists. split; [reflexivity|].
    assert (U : 100 / (1 + x / y) <= 100) by (apply Qle_shift_div_r; lra).
    assert (V : 0 < 100 / (1 + x / y)) by (apply Qlt_shift_div_l; lra).
    split; [unfold Qminus; reflexivity|]. split; lra.
Qed.



(** ** The RSI of a steadily rising or falling price (app10.py) *)

(** Every close is above the one before ([up]) or below it. *)
Definition steadily (up : bool) (xs : list Q) : Prop :=
  forall j a b,
    nth_error xs j = Some a -> nth_error xs (S j) = Some b ->
    if up then a < b else b < a.

Lemma diff_nth_error (xs : list Q) j a b :
  nth_error xs j = Some a -> nth_error xs (S j) = Some b ->
  nth_error (diff (map Num xs)) (S j) = Some (Num (b - a)).
Proof.
  intros Ha Hb. pose proof (nth_error_in_range _ _ _ Hb) as Hlen.
  unfold diff, s_sub. rewrite zip_with_nth_error.
  rewrite shift_nth_error_back by (rewrite ?length_map; lia).
  rewrite !map_nth_error'. replace (S j - 1)%nat with j by lia.
  rewrite Ha, Hb. reflexivity.
Qed.

Lemma diff_in (xs : list Q) v :
  In v (diff (map Num xs)) ->
  v = NaN \/
  exists j a b, nth_error xs j = Some a /\ nth_error xs (S j) = Some b /\
                v = Num (b - a).
Proof.
  intros H. apply In_nth_error in H. destruct H as (k & Hk).
  pose proof (nth_error_in_range _ _ _ Hk) as Hlen.
  unfold diff, s_sub in Hlen.
  rewrite zip_with_length, shift_length, length_map, Nat.min_id in Hlen.
  destruct k as [|j].
  - left. destruct xs as [|x xs]; [simpl in Hlen; lia|].
    destruct (diff_head (Num x) (map Num xs)) as (t & Ht).
    cbn [map] in Hk. rewrite Ht in Hk. simpl in Hk. congruence.
  - right.
    destruct (nth_error_defined xs j) as (a & Ha); [lia|].
    destruct (nth_error_defined xs (S j)) as (b & Hb); [lia|].
    rewrite (diff_nth_error xs j a b Ha Hb) in Hk.
    exists j, a, b. repeat split; auto. congruence.
Qed.

Lemma observations_all_some win :
  (forall x, In x win -> x <> None) ->
  length (observations win) = length win.
Proof.
  induction win as [|[q|] win IH]; intros H; simpl.
  - reflexivity.
  - f_equal. apply IH. intros x Hx. apply H. now right.
  - exfalso. apply (H None); [now left|reflexivity].
Qed.

Lemma window_at_in_index {A : Type} w (xs : list A) i x :
  (i < length xs)%nat ->
  In x (window_at w xs i) ->
  exists j, (i + 1 - w <= j)%nat /\ (j <= i)%nat /\ nth_error xs j = Some x.
Proof.
  intros Hi H. apply In_nth_error in H. destruct H as (k & Hk).
  pose proof (nth_error_in_range _ _ _ Hk) as Hlen.
  rewrite window_at_length in Hlen by exact Hi.
  exists (k + (i + 1 - w))%nat. split; [lia|]. split; [lia|].
  rewrite <- (window_at_nth_error w xs i (k + (i + 1 - w))) by lia.
  replace (k + (i + 1 - w) - (i + 1 - w))%nat with k by lia. exact Hk.
Qed.

(** A complete window of finite values has a mean. *)
Lemma rolling_mean_defined w (a : Series) i :
  (1 <= w)%nat -> (w <= i + 1)%nat -> (i < length a)%nat ->
  (forall j, (i + 1 - w <= j)%nat -> (j <= i)%nat ->
             exists q, nth_error a j = Some (Num q)) ->
  exists m, nth_error (rolling_mean w a) i = Some (Num m).
Proof.
  intros Hw Hwi Hi Hnum. unfold rolling_mean.
  rewrite rolling_nth_error by exact Hi.
  assert (Hlen : length (observations (window_at w (map prep a) i)) = w).
  { rewrite observations_all_some.
    - rewrite window_at_length by (now rewrite length_map). lia.
    - intros x Hx. apply window_at_in_index in Hx; [|now rewrite length_map].
      destruct Hx as (j & Hlo & Hhi & Hj).
      destruct (Hnum j Hlo Hhi) as (q & Hq).
      rewrite map_nth_error', Hq in Hj. simpl in Hj. congruence. }
  unfold calc_mean. rewrite Hlen, Nat.leb_refl.
  destruct (Nat.ltb_spec 0 w); [|lia]. eexists. reflexivity.
Qed.

Lemma Qsum_pos l :
  (0 < length l)%nat -> (forall q, In q l -> 0 < q) -> 0 < Qsum l.
Proof.
  destruct l as [|x l]; simpl; intros Hn H; [lia|].
  assert (0 < x) by (apply H; auto).
  assert (0 <= Qsum l).
  { apply Qsum_nonneg. intros q Hq. apply Qlt_le_weak, H. auto. }
  lra.
Qed.

Lemma rolling_mean_pos w a i m :
  (forall q, In (Num q) a -> 0 < q) ->
  nth_error (rolling_mean w a) i = Some (Num m) -> 0 < m.
Proof.
  intros Ha H. pose proof (nth_error_in_range _ _ _ H) as Hi.
  unfold rolling_mean in *. rewrite rolling_length in Hi.
  rewrite rolling_nth_error in H by exact Hi. unfold calc_mean in H.
  destruct (_ && _)%bool eqn:E; [|discriminate].
  injection H as <-. apply andb_prop in E. destruct E as [_ E].
  apply Nat.ltb_lt in E. unfold Qmean.
  apply Qlt_shift_div_l; [now apply Qnat_pos|].
  assert (0 < Qsum (observations (window_at w (map prep a) i))).
  { apply Qsum_pos; [exact E|].
    intros q Hq. apply Ha. eapply rolling_observation_in; eauto. }
  lra.
Qed.

(** The gains and the losses of a steadily moving price. *)
Lemma steady_gain up xs q :
  steadily up xs ->
  In (Num q) (clip_lower (Num 0) (diff (map Num xs))) ->
  if up then 0 < q else q == 0.
Proof.
  intros Hst H. unfold clip_lower in H. apply in_map_iff in H.
  destruct H as (v & Hv & Hin). apply diff_in in Hin.
  destruct Hin as [->|(j & a & b & Ha & Hb & ->)]; [discriminate|].
  specialize (Hst j a b Ha Hb). unfold fltb in Hv. cbn [fgtb] in Hv.
  destruct (Qltb (b - a) 0) eqn:E; injection Hv as <-.
  - apply Qltb_true in E. destruct up; lra.
  - apply Qltb_false in E. destruct up; lra.
Qed.

Lemma steady_loss up xs q :
  steadily up xs ->
  In (Num q) (s_neg (clip_upper (Num 0) (diff (map Num xs)))) ->
  if up then q == 0 else 0 < q.
Proof.
  intros Hst H. unfold s_neg, clip_upper in H. rewrite map_map in H.
  apply in_map_iff in H.
  destruct H as (v & Hv & Hin). apply diff_in in Hin.
  destruct Hin as [->|(j & a & b & Ha & Hb & ->)]; [discriminate|].
  specialize (Hst j a b Ha Hb). cbn [fgtb] in Hv.
  destruct (Qltb 0 (b - a)) eqn:E; cbn [fneg] in Hv; injection Hv as <-.
  - apply Qltb_true in E. destruct up; lra.
  - apply Qltb_false in E. destruct up; lra.
Qed.

Lemma steady_averages_defined window xs i :
  (1 <= window)%nat -> (window <= i)%nat -> (i < length xs)%nat ->
  (exists g, nth_error (App10.avg_gain window (map Num xs)) i = Some (Num g)) /\
  (exists l, nth_error (App10.avg_loss window (map Num xs)) i = Some (Num l)).
Proof.
  intros Hw Hwi Hi.
  assert (Hd : forall j, (i + 1 - window <= j)%nat -> (j <= i)%nat ->
               exists d, nth_error (diff (map Num xs)) j = Some (Num d)).
  { intros j Hlo Hhi. destruct j as [|j]; [lia|].
    destruct (nth_error_defined xs j) as (a & Ha); [lia|].
    destruct (nth_error_defined xs (S j)) as (b & Hb); [lia|].
    eexists. apply (diff_nth_error xs j a b Ha Hb). }
  assert (Hlen : length (diff (map Num xs)) = length xs).
  { unfold diff, s_sub. rewrite zip_with_length, shift_length, length_map. lia. }
  split.
  - unfold App10.avg_gain. apply rolling_mean_defined; try lia.
    + unfold clip_lower. rewrite length_map. lia.
    + intros j Hlo Hhi. destruct (Hd j Hlo Hhi) as (d & Ed).
      unfold clip_lower. rewrite map_nth_error', Ed. cbn [option_map].
      destruct (fltb (Num d) (Num 0)); eauto.
  - unfold App10.avg_loss. apply rolling_mean_defined; try lia.
    + unfold s_neg, clip_upper. rewrite !length_map. lia.
    + intros j Hlo Hhi. destruct (Hd j Hlo Hhi) as (d & Ed).
      unfold s_neg, clip_upper. rewrite !map_nth_error', Ed. cbn [option_map].
      destruct (fgtb (Num d) (Num 0)); cbn [fneg]; eauto.
Qed.

(** X15: for closes that rise from every bar to the next, the RSI is 100
    at every bar from index [window] on; for closes that fall from every
    bar to the next it is 0 there. *)
Theorem rsi_of_steady_closes (up : bool) (window : nat) (xs : list Q) (i : nat) :
  (1 <= window)%nat -> (window <= i)%nat -> (i < length xs)%nat ->
  steadily up xs ->
  exists r,
    nth_error (App10.rsi_of window (map Num xs)) i = Some (Num r) /\
    r == (if up then 100 else 0).
Proof.
  intros Hw Hwi Hi Hst.
  destruct (steady_averages_defined window xs i Hw Hwi Hi) as ((g & Eg) & (l & El)).
  rewrite rsi_nth_error, Eg, El.
  assert (Hg : if up then 0 < g else g == 0).
  { destruct up.
    - eapply rolling_mean_pos; [|exact Eg].
      intros q Hq. apply (steady_gain true xs q Hst Hq).
    - eapply rolling_mean_zero; [|exact Eg].
      intros q Hq. apply (steady_gain false xs q Hst Hq). }
  assert (Hl : if up then l == 0 else 0 < l).
  { destruct up.
    - eapply rolling_mean_zero; [|exact El].
      intros q Hq. apply (steady_loss true xs q Hst Hq).
    - eapply rolling_mean_pos; [|exact El].
      intros q Hq. apply (steady_loss false xs q Hst Hq). }
  destruct up.
  - destruct (rsi_value g l) as (_ & H & _); [lra|lra|].
    destruct (H Hg Hl) as (r & -> & Hr). exists r. split; [reflexivity|exact Hr].
  - destruct (rsi_value g l) as (_ & _ & H); [lra|lra|].
    destruct (H Hl) as (r & -> & Hr & _). exists r. split; [reflexivity|].
    rewrite Hr, Hg. field. lra.
Qed.

Lemma rsi_of_steady_closes_witness :
  exists r,
    nth_error (App10.rsi_of 2 (map Num [100; 101; 103; 106])) 3 = Some (Num r) /\
    r == 100.
Proof.
  apply (rsi_of_steady_closes true 2 [100; 101; 103; 106] 3); try (simpl; lia).
  intros [|[|[|[|j]]]] a b Ha Hb; simpl in Ha, Hb; try discriminate;
    injection Ha as <-; injection Hb as <-; reflexivity.
Defined.

(** ** ADX on a market without range (tradingbot.py) *)

(** Every bar has its high, its low and its close at [c]. *)
Definition flat_market (c : Q) (df : DataFrame) : Prop :=
  forall b, In b df -> High b = Num c /\ Low b = Num c /\ Close b = Num c.

Lemma flat_true_range c df t :
  flat_market c df -> In t (adx_tr df) -> exists q, t = Num q /\ q == 0.
Proof.
  intros Hflat Ht. apply In_nth_error in Ht. destruct Ht as (j & Hj).
  pose proof (nth_error_in_range _ _ _ Hj) as Hlen.
  rewrite adx_tr_length in Hlen.
  destruct (nth_error_defined df j) as (b0 & H0); [lia|].
  destruct (nth_error_defined df (S j)) as (b1 & H1); [lia|].
  destruct (Hflat b0 (nth_error_In _ _ H0)) as (_ & _ & Ec0).
  destruct (Hflat b1 (nth_error_In _ _ H1)) as (Eh1 & El1 & _).
  assert (T : forall f, nth_error (tl (col f df)) j = Some (f b1)).
  { intros f. now rewrite tl_nth_error, col_nth_error, H1. }
  assert (R : forall f, nth_error (removelast (col f df)) j = Some (f b0)).
  { intros f. rewrite removelast_nth_error by (rewrite col_length; lia).
    now rewrite col_nth_error, H0. }
  unfold adx_tr, s_abs, s_sub in Hj.
  rewrite zip_with3_nth_error, !map_nth_error', !zip_with_nth_error, !T, !R in Hj.
  rewrite Ec0, Eh1, El1 in Hj. cbn [option_map fsub fneg fadd fabs] in Hj.
  assert (Z : c + - c == 0) by ring.
  assert (A : Qabs (c + - c) == 0) by (rewrite Z; reflexivity).
  unfold np_max3, np_max2 in Hj. cbn [is_nan orb fgtb] in Hj.
  destruct (Qltb (c + - c) (Qabs (c + - c))); cbn [is_nan orb fgtb] in Hj;
    destruct (Qltb _ (Qabs (c + - c))) in Hj; injection Hj as <-;
    eexists; (split; [reflexivity|]); assumption.
Qed.

Lemma rolling_sum_zero w a i v :
  (forall t, In t a -> exists q, t = Num q /\ q == 0) ->
  nth_error (rolling_sum w a) i = Some v ->
  v = NaN \/ exists s, v = Num s /\ s == 0.
Proof.
  intros Ha H. pose proof (nth_error_in_range _ _ _ H) as Hi.
  unfold rolling_sum in *. rewrite rolling_length in Hi.
  rewrite rolling_nth_error in H by exact Hi. injection H as <-.
  unfold calc_sum. destruct (_ && _)%bool.
  - right. exists 0. split; reflexivity.
  - destruct (_ <=? _)%nat; [|now left].
    right. eexists. split; [reflexivity|]. apply Qsum_zero.
    intros q Hq. apply rolling_observation_in in Hq.
    destruct (Ha _ Hq) as (q' & E & Hq'). injection E as ->. exact Hq'.
Qed.

Lemma flat_di c dm df period j v :
  flat_market c df -> nth_error (adx_di dm df period) j = Some v -> v = NaN.
Proof.
  intros Hflat. unfold adx_di, s_scale, s_div, replace_zero_nan.
  rewrite map_nth_error', zip_with_nth_error, map_nth_error'.
  destruct (nth_error (rolling_sum period dm) j) as [x|]; [|discriminate].
  destruct (nth_error (rolling_sum period (adx_tr df)) j) as [t|] eqn:Et;
    [|discriminate].
  cbn [option_map]. intros H. injection H as <-.
  destruct (rolling_sum_zero _ _ _ _ (fun t => flat_true_range c df t Hflat) Et)
    as [->|(s & -> & Hs)].
  - destruct x; reflexivity.
  - apply Qeq_bool_iff in Hs. cbn [feqb]. rewrite Hs. destruct x; reflexivity.
Qed.

Lemma flat_dx c df period j v :
  flat_market c df -> nth_error (adx_dx df period) j = Some v -> v = NaN.
Proof.
  intros Hflat. unfold adx_dx, s_div, s_scale, s_abs, s_sub, s_add, replace_zero_nan.
  rewrite zip_with_nth_error, !map_nth_error', !zip_with_nth_error.
  destruct (nth_error (adx_plus_di df period) j) as [p|] eqn:Ep; [|discriminate].
  destruct (nth_error (adx_minus_di df period) j) as [m|] eqn:Em; [|discriminate].
  unfold adx_plus_di in Ep.
  apply (flat_di c (adx_plus_dm df) df period j p Hflat) in Ep. subst p.
  cbn [option_map]. intros H. injection H as <-. reflexivity.
Qed.

Lemma rolling_mean_all_nan w a i v :
  (forall x, In x a -> x = NaN) ->
  nth_error (rolling_mean w a) i = Some v -> v = NaN.
Proof.
  intros Ha H. pose proof (nth_error_in_range _ _ _ H) as Hi.
  unfold rolling_mean in *. rewrite rolling_length in Hi.
  rewrite rolling_nth_error in H by exact Hi. injection H as <-.
  destruct (observations (window_at w (map prep a) i)) as [|q obs] eqn:E.
  - unfold calc_mean. cbn [length]. rewrite andb_false_r. reflexivity.
  - assert (Hq : In q (observations (window_at w (map prep a) i)))
      by (rewrite E; now left).
    apply rolling_observation_in in Hq. apply Ha in Hq. discriminate.
Qed.

Lemma nan_cons_repeat (s : Series) n :
  (2 <= n)%nat -> length s = (n - 1)%nat ->
  (forall j v, nth_error s j = Some v -> v = NaN) ->
  NaN :: s = repeat NaN n.
Proof.
  intros Hn Hlen H. destruct n as [|n]; [lia|]. cbn [repeat]. f_equal.
  apply all_nan_repeat; [lia|].
  intros i Hi. destruct (nth_error_defined s i) as (v & Hv); [lia|].
  rewrite Hv. f_equal. eapply H; eauto.
Qed.

(** X16: on a market without range, every high, low and close at the
    same price, the true range is 0 at every bar, the guarded division
    gives no value, and +DI, -DI and ADX are NaN at every bar, whatever
    the period: nothing is raised and nothing is infinite. *)
Theorem adx_undefined_on_flat_market (df : DataFrame) (period : nat) (c : Q) :
  flat_market c df ->
  add_adx df period =
    Returned (repeat NaN (length df), repeat NaN (length df),
              repeat NaN (length df)).
Proof.
  intros Hflat. destruct (Nat.lt_ge_cases (length df) 2) as [Hn|Hn].
  - unfold add_adx, col, mk_series. rewrite length_map.
    destruct (Nat.ltb_spec (length df) 2) as [_|Hge]; [|lia].
    rewrite repeat_length, Nat.eqb_refl. reflexivity.
  - rewrite add_adx_long by exact Hn.
    rewrite (nan_cons_repeat (adx_plus_di df period) (length df) Hn),
            (nan_cons_repeat (adx_minus_di df period) (length df) Hn),
            (nan_cons_repeat (adx_raw df period) (length df) Hn).
    + reflexivity.
    + apply adx_raw_length.
    + intros j v Hv. unfold adx_raw in Hv.
      eapply rolling_mean_all_nan; [|exact Hv].
      intros x Hx. apply In_nth_error in Hx. destruct Hx as (k & Hk).
      eapply flat_dx; eauto.
    + apply adx_minus_di_length.
    + intros j v. unfold adx_minus_di.
      apply (flat_di c (adx_minus_dm df) df period j v Hflat).
    + apply adx_plus_di_length.
    + intros j v. unfold adx_plus_di.
      apply (flat_di c (adx_plus_dm df) df period j v Hflat).
Qed.

Lemma adx_undefined_on_flat_market_witness :
  add_adx flat_bars 2 =
    Returned (repeat NaN (length flat_bars), repeat NaN (length flat_bars),
              repeat NaN (length flat_bars)).
Proof.
  apply (adx_undefined_on_flat_market flat_bars 2 100).
  intros b Hb. apply repeat_spec in Hb. subst b. repeat split.
Defined.

(** ** From the data check to the verdict (app10.py) *)











(** ** Resampled bars (app11.py) *)

Lemma series_extremum_finite (pick : fval -> fval -> fval) (a : Series) :
  (forall acc v, pick acc v = acc \/ pick acc v = v) ->
  (forall v, is_nan v = false -> pick NaN v = v) ->
  (forall acc v, is_nan acc = false -> is_nan (pick acc v) = false) ->
  a <> [] ->
  (forall v, In v a -> exists q, v = Num q) ->
  exists q, fold_left pick a NaN = Num q.
Proof.
  intros Hor Hnan Hkeep Hne Hfin.
  destruct a as [|v a]; [contradiction|].
  destruct (Hfin v (or_introl eq_refl)) as (q0 & ->).
  cbn [fold_left]. rewrite Hnan by reflexivity.
  assert (G : forall l acc,
             (exists q, acc = Num q) ->
             (forall v, In v l -> exists q, v = Num q) ->
             exists q, fold_left pick l acc = Num q).
  { induction l as [|x l IH]; intros acc Hacc Hl; [exact Hacc|].
    cbn [fold_left]. apply IH.
    - destruct (Hor acc x) as [->| ->]; [exact Hacc|apply Hl; now left].
    - intros y Hy. apply Hl. now right. }
  apply G; [eauto|]. intros y Hy. apply Hfin. now right.
Qed.

Lemma series_max_finite (a : Series) :
  a <> [] -> (forall v, In v a -> exists q, v = Num q) ->
  exists q, series_max a = Num q.
Proof.
  apply series_extremum_finite.
  - intros acc v. unfold nan_max2.
    destruct (is_nan v), (is_nan acc), (fgtb v acc); auto.
  - intros v Hv. unfold nan_max2. rewrite Hv. reflexivity.
  - intros acc v Hacc. unfold nan_max2.
    destruct (is_nan v) eqn:Ev; [exact Hacc|]. rewrite Hacc.
    destruct (fgtb v acc); assumption.
Qed.

Lemma series_min_finite (a : Series) :
  a <> [] -> (forall v, In v a -> exists q, v = Num q) ->
  exists q, series_min a = Num q.
Proof.
  apply series_extremum_finite.
  - intros acc v. unfold nan_min2.
    destruct (is_nan v), (is_nan acc), (fltb v acc); auto.
  - intros v Hv. unfold nan_min2. rewrite Hv. reflexivity.
  - intros acc v Hacc. unfold nan_min2.
    destruct (is_nan v) eqn:Ev; [exact Hacc|]. rewrite Hacc.
    destruct (fltb v acc); assumption.
Qed.

Lemma agg_first_in (s : Series) v :
  App11.agg_first s = v -> is_nan v = false -> In v s.
Proof.
  unfold App11.agg_first. intros H Hv.
  destruct (filter _ s) as [|x l] eqn:E; [subst v; discriminate|].
  subst x. assert (Hin : In v (filter (fun v => negb (is_nan v)) s))
    by (rewrite E; now left).
  apply filter_In in Hin. tauto.
Qed.

Lemma agg_first_finite (s : Series) :
  s <> [] -> (forall v, In v s -> exists q, v = Num q) ->
  exists q, App11.agg_first s = Num q /\ In (Num q) s.
Proof.
  intros Hne Hfin. destruct s as [|v s]; [contradiction|].
  destruct (Hfin v (or_introl eq_refl)) as (q & ->).
  exists q. split; [reflexivity|now left].
Qed.

(** The bar of a bin that is not empty and holds well-formed bars. *)
Lemma agg_bar_ok (bin : DataFrame) :
  bin <> [] -> Forall ohlc_ok bin -> ohlc_ok (App11.agg_bar bin).
Proof.
  intros Hne Hok. rewrite Forall_forall in Hok.
  assert (Hcol : forall f, col f bin <> []).
  { intros f E. apply map_eq_nil in E. contradiction. }
  assert (Hh : forall v, In v (col High bin) -> exists q, v = Num q).
  { intros v Hv. apply in_map_iff in Hv. destruct Hv as (b & <- & Hb).
    destruct (Hok b Hb) as (h & l & c & -> & _). eauto. }
  assert (Hl : forall v, In v (col Low bin) -> exists q, v = Num q).
  { intros v Hv. apply in_map_iff in Hv. destruct Hv as (b & <- & Hb).
    destruct (Hok b Hb) as (h & l & c & _ & -> & _). eauto. }
  assert (Hc : forall v, In v (rev (col Close bin)) -> exists q, v = Num q).
  { intros v Hv. apply in_rev, in_map_iff in Hv. destruct Hv as (b & <- & Hb).
    destruct (Hok b Hb) as (h & l & c & _ & _ & -> & _). eauto. }
  destruct (series_max_finite _ (Hcol High) Hh) as (hi & Ehi).
  destruct (series_min_finite _ (Hcol Low) Hl) as (lo & Elo).
  destruct (agg_first_finite (rev (col Close bin))) as (cl & Ecl & Hin); auto.
  { intros E. apply (f_equal (@length fval)) in E.
    rewrite length_rev in E. apply length_zero_iff_nil in E.
    now apply (Hcol Close). }
  exists hi, lo, cl. unfold App11.agg_bar, App11.agg_last.
  cbn [High Low Close]. repeat split; auto.
  - apply in_rev, in_map_iff in Hin. destruct Hin as (b & Eb & Hb).
    destruct (Hok b Hb) as (h & l & c & _ & El & Ec & Hlc & _).
    destruct (series_min_spec _ _ Elo) as (_ & Hmin).
    specialize (Hmin (Low b) (in_map Low bin b Hb)).
    rewrite El in Hmin. specialize (Hmin eq_refl). cbn [fle] in Hmin.
    rewrite Ec in Eb. injection Eb as <-. lra.
  - apply in_rev, in_map_iff in Hin. destruct Hin as (b & Eb & Hb).
    destruct (Hok b Hb) as (h & l & c & Eh & _ & Ec & _ & Hch).
    destruct (series_max_spec _ _ Ehi) as (_ & Hmax).
    specialize (Hmax (High b) (in_map High bin b Hb)).
    rewrite Eh in Hmax. specialize (Hmax eq_refl). cbn [fle] in Hmax.
    rewrite Ec in Eb. injection Eb as <-. lra.
Qed.

(** X19: resampling keeps the bars well formed.  If every downloaded bar
    has finite prices with low <= close <= high, so has every bar of the
    resampled frame, however the bars are distributed over the bins; the
    rows of the empty bins are dropped. *)
Theorem resample_bars_well_formed (bins : list DataFrame) :
  Forall (Forall ohlc_ok) bins ->
  Forall ohlc_ok (App11.resample_bars bins) /\
  (length (App11.resample_bars bins)
     <= length (filter (fun bin => negb (length bin =? 0)%nat) bins))%nat.
Proof.
  intros Hok. unfold App11.resample_bars, App11.dropna.
  induction Hok as [|bin bins Hbin _ (IH1 & IH2)].
  - split; [constructor|reflexivity].
  - cbn [map filter]. destruct bin as [|b bin].
    + cbn. split; assumption.
    + cbn [length Nat.eqb negb].
      assert (Hagg : ohlc_ok (App11.agg_bar (b :: bin)))
        by (apply agg_bar_ok; [discriminate|exact Hbin]).
      destruct (negb _); [|split; [exact IH1|cbn [length]; lia]].
      split; [constructor; assumption|cbn [length]; lia].
Qed.

Lemma resample_bars_well_formed_witness :
  Forall ohlc_ok (App11.resample_bars [two_bars; []; five_bars]) /\
  (length (App11.resample_bars [two_bars; []; five_bars])
     <= length (filter (fun bin => negb (length bin =? 0)%nat)
                  [two_bars; []; five_bars]))%nat.
Proof.
  apply (resample_bars_well_formed [two_bars; []; five_bars]).
  assert (H2 : Forall ohlc_ok two_bars).
  { unfold two_bars. constructor; [|constructor; [|constructor]].
    - exists 110, 90, 105. repeat split; lra.
    - exists 100, 95, 98. repeat split; lra. }
  constructor; [exact H2|].
  constructor; [constructor|].
  constructor; [exact five_bars_ok|constructor].
Defined.
